(** * Monitor Hub: heartbeat processing and the watchdog sweep

    A shallow embedding of [monitor_hub/app.py], [monitor_hub/watchdog.py]
    and the alert entry points of [monitor_hub/slack_notifier.py].

    The two SQLite tables are lists of rows in rowid order, the handlers are
    written in a small state-and-exception monad over a [world] that holds the
    database and the chronological trace of side effects, and everything the
    program reads from outside (the clocks, the answer of the Slack Web API)
    is an explicit input. *)

From Stdlib Require Import ZArith QArith Qround Qabs Qpower Lia Lqa.
From Stdlib Require Import List Permutation String Bool.
Import ListNotations.

Open Scope Z_scope.

(** ** Time *)

(** A naive [datetime] is the number of microseconds since a fixed epoch; a
    [timedelta] is a signed number of microseconds. *)
Definition datetime := Z.
Definition timedelta := Z.

Definition us_per_second : Z := 1000000.
Definition us_per_hour : Z := 3600 * us_per_second.

(** ** Python floats

    [total_seconds() / 3600] is computed in binary64.  A float is the
    rational it denotes, and every operation rounds its exact result to 53
    significant bits, ties to even.  Overflow and subnormals are left out:
    datetime's range (years 1 to 9999) keeps every quotient computed here
    between 2^-32 and 2^40 in magnitude. *)
Module Float.

(** Nearest integer, ties to the even one. *)
Definition round_half_even (q : Q) : Z :=
  let f := Qfloor q in
  match Qcompare (q - inject_Z f) (1 # 2) with
  | Lt => f
  | Gt => f + 1
  | Eq => if Z.even f then f else f + 1
  end.

(** [floor (log2 |q|)] for [q] other than zero. *)
Definition ilog2 (q : Q) : Z :=
  let k := Z.log2 (Z.abs (Qnum q)) - Z.log2 (Zpos (Qden q)) in
  if Qle_bool (Qpower 2 k) (Qabs q) then k else k - 1.

Definition binary64 (q : Q) : Q :=
  if Qeq_bool q 0 then 0%Q
  else
    let e := ilog2 q - 52 in
    Qred (inject_Z (round_half_even (q / Qpower 2 e)) * Qpower 2 e).

(** [a / b] on two ints (true division) and on a float and an int: one
    rounding of the exact quotient. *)
Definition truediv (a b : Z) : Q := binary64 (inject_Z a / inject_Z b).
Definition div (x : Q) (b : Z) : Q := binary64 (x / inject_Z b).

(** [x > n] for a float and an int: Python compares the exact values. *)
Definition gt (x : Q) (n : Z) : bool := negb (Qle_bool x (inject_Z n)).

(** [int(x)]: truncation toward zero. *)
Definition to_int (x : Q) : Z := Z.quot (Qnum x) (Zpos (Qden x)).

End Float.

(** [timedelta.total_seconds()]. *)
Definition total_seconds (d : timedelta) : Q := Float.truediv d us_per_second.

(** ** Values stored in the tables *)

(** What the [last_heartbeat] column can hold, as [check_all_agents] sees it.
    [receive_heartbeat] binds a [datetime], which sqlite3 stores as its ISO
    text; rows written by other means may hold anything. *)
Inductive heartbeat_cell :=
| HbNull                  (* SQL NULL, read back as None *)
| HbEmpty                 (* a falsy value other than None: the empty text *)
| HbIso (t : datetime)    (* ISO text without offset: parses to the naive datetime t *)
| HbIsoAware (t : datetime) (* ISO text with a UTC offset: parses to an aware datetime *)
| HbGarbage.              (* any other value: datetime.fromisoformat raises *)

Inductive py_datetime :=
| Naive (t : datetime)
| Aware (t : datetime).

(** Python truth value of the cell ([not last_heartbeat_str] is its negation). *)
Definition truthy (c : heartbeat_cell) : bool :=
  match c with
  | HbNull | HbEmpty => false
  | HbIso _ | HbIsoAware _ | HbGarbage => true
  end.

(** [datetime.fromisoformat]; [None] stands for a raised exception. *)
Definition fromisoformat (c : heartbeat_cell) : option py_datetime :=
  match c with
  | HbIso t => Some (Naive t)
  | HbIsoAware t => Some (Aware t)
  | HbNull | HbEmpty | HbGarbage => None
  end.

Module Agents.
(** A row of table [agents]. *)
Record row := {
  id : Z;
  name : string;
  last_heartbeat : heartbeat_cell;
  expected_interval_hours : option Z;
  status : string;
  last_message : option string;
  created_at : Z
}.
End Agents.

Module HeartbeatLog.
(** A row of table [heartbeat_log]. *)
Record row := {
  id : Z;
  agent_name : string;
  status : string;
  message : option string;
  timestamp : datetime
}.
End HeartbeatLog.

Module HeartbeatRequest.
(** The pydantic model: [message] and [expected_interval_hours] are
    [Optional], so an explicit null reaches the handler as [None]. *)
Record t := {
  agent_name : string;
  status : string;
  message : option string;
  expected_interval_hours : option Z
}.
End HeartbeatRequest.

(** The tables in rowid order, each with the largest rowid AUTOINCREMENT has
    handed out so far (its entry in sqlite_sequence). *)
Record database := {
  agents : list Agents.row;
  agents_seq : Z;
  heartbeat_log : list HeartbeatLog.row;
  heartbeat_log_seq : Z
}.

(** [init_db] on a new file. *)
Definition init_db : database :=
  {| agents := []; agents_seq := 0; heartbeat_log := []; heartbeat_log_seq := 0 |}.

(** ** Side effects *)

Inductive alert :=
| ErrorAlert (agent_name : string) (error_message : option string)
| TimeoutAlert (agent_name : string) (last_heartbeat : heartbeat_cell) (hours_overdue : Z).

(** How the Slack client answers one [_send_message]. *)
Inductive slack_outcome :=
| Delivered       (* both Web API calls return *)
| ApiError        (* one of them raises SlackApiError *)
| OtherError.     (* one of them raises anything else *)

Inductive event :=
| AgentsWrite (name : string)          (* INSERT OR REPLACE INTO agents *)
| LogAppend (agent_name : string)      (* INSERT INTO heartbeat_log *)
| StaleUpdate (name : string)          (* UPDATE agents SET status = 'stale' *)
| Commit                               (* conn.commit() *)
| Dispatch (a : alert) (r : slack_outcome). (* a call of send_error_alert / send_timeout_alert *)

Record world := {
  db : database;
  trace : list event    (* oldest first *)
}.

Definition initial_world : world := {| db := init_db; trace := [] |}.

(** What one handler call or one loop iteration reads from outside. *)
Record environment := {
  now : datetime;            (* datetime.now() *)
  current_timestamp : Z;     (* SQLite's CURRENT_TIMESTAMP *)
  slack : slack_outcome
}.

(** ** Exceptions and the monad *)

Inductive exn :=
| HTTPException (status_code : Z) (detail : string)
| TypeError
| OverflowError         (* Python int too large to convert to SQLite INTEGER *)
| SlackApiError
| SlackClientFailure.   (* what the client raises in case OtherError *)

Inductive outcome (A : Type) :=
| Returned (a : A)
| Raised (e : exn).
Arguments Returned {A} a.
Arguments Raised {A} e.

Definition M (A : Type) : Type := world -> world * outcome A.

Definition ret {A} (a : A) : M A := fun w => (w, Returned a).
Definition raise {A} (e : exn) : M A := fun w => (w, Raised e).
Definition bind {A B} (c : M A) (k : A -> M B) : M B :=
  fun w =>
    match c w with
    | (w', Returned a) => k a w'
    | (w', Raised e) => (w', Raised e)
    end.

Notation "x <- c ;; k" := (bind c (fun x => k))
  (at level 61, c at next level, right associativity).
Notation "c ;; k" := (bind c (fun _ => k))
  (at level 61, right associativity).

(** [try: c  except SlackApiError: print(...)]. *)
Definition except_SlackApiError (c : M unit) : M unit :=
  fun w =>
    match c w with
    | (w', Raised SlackApiError) => (w', Returned tt)
    | r => r
    end.

(** [try: c  except Exception as e: print(...)]. *)
Definition except_Exception (c : M unit) : M unit :=
  fun w =>
    match c w with
    | (w', Raised _) => (w', Returned tt)
    | r => r
    end.

Definition emit (e : event) : M unit :=
  fun w => ({| db := db w; trace := trace w ++ [e] |}, Returned tt).

Definition update_db (f : database -> database) : M unit :=
  fun w => ({| db := f (db w); trace := trace w |}, Returned tt).

Fixpoint for_each {A} (body : nat -> A -> M unit) (i : nat) (l : list A) : M unit :=
  match l with
  | [] => ret tt
  | x :: l' => body i x ;; for_each body (S i) l'
  end.

(** ** SQL statements *)

Definition max_rowid {R} (rowid : R -> Z) (rows : list R) : Z :=
  fold_right (fun r m => Z.max (rowid r) m) 0 rows.

(** AUTOINCREMENT: one more than the largest rowid the table ever held. *)
Definition next_rowid {R} (seq : Z) (rowid : R -> Z) (rows : list R) : Z :=
  Z.max seq (max_rowid rowid rows) + 1.

(** [INSERT OR REPLACE INTO agents (name, last_heartbeat,
    expected_interval_hours, status, last_message) VALUES (?, ?, ?, ?, ?)]:
    the row that holds the same [name] (UNIQUE) is deleted, and a new row is
    inserted; [id] and [created_at] are not listed, so they take a fresh rowid
    and DEFAULT CURRENT_TIMESTAMP. *)
Definition insert_or_replace_agents (cts : Z) (name : string)
    (last_heartbeat : heartbeat_cell) (expected_interval_hours : option Z)
    (status : string) (last_message : option string) (d : database) : database :=
  let rowid := next_rowid (agents_seq d) Agents.id (agents d) in
  {| agents :=
       filter (fun r => negb (Agents.name r =? name)%string) (agents d)
       ++ [ {| Agents.id := rowid;
               Agents.name := name;
               Agents.last_heartbeat := last_heartbeat;
               Agents.expected_interval_hours := expected_interval_hours;
               Agents.status := status;
               Agents.last_message := last_message;
               Agents.created_at := cts |} ];
     agents_seq := rowid;
     heartbeat_log := heartbeat_log d;
     heartbeat_log_seq := heartbeat_log_seq d |}.

(** [INSERT INTO heartbeat_log (agent_name, status, message, timestamp)
    VALUES (?, ?, ?, ?)]. *)
Definition insert_heartbeat_log (agent_name : string) (status : string)
    (message : option string) (timestamp : datetime) (d : database) : database :=
  let rowid := next_rowid (heartbeat_log_seq d) HeartbeatLog.id (heartbeat_log d) in
  {| agents := agents d;
     agents_seq := agents_seq d;
     heartbeat_log :=
       heartbeat_log d
       ++ [ {| HeartbeatLog.id := rowid;
               HeartbeatLog.agent_name := agent_name;
               HeartbeatLog.status := status;
               HeartbeatLog.message := message;
               HeartbeatLog.timestamp := timestamp |} ];
     heartbeat_log_seq := rowid |}.

Definition set_status (status : string) (r : Agents.row) : Agents.row :=
  {| Agents.id := Agents.id r;
     Agents.name := Agents.name r;
     Agents.last_heartbeat := Agents.last_heartbeat r;
     Agents.expected_interval_hours := Agents.expected_interval_hours r;
     Agents.status := status;
     Agents.last_message := Agents.last_message r;
     Agents.created_at := Agents.created_at r |}.

(** [UPDATE agents SET status = 'stale' WHERE name = ?]. *)
Definition update_agents_stale (name : string) (d : database) : database :=
  {| agents :=
       map (fun r => if (Agents.name r =? name)%string then set_status "stale" r else r)
           (agents d);
     agents_seq := agents_seq d;
     heartbeat_log := heartbeat_log d;
     heartbeat_log_seq := heartbeat_log_seq d |}.

(** [SELECT name, last_heartbeat, expected_interval_hours, status FROM agents]
    followed by [cursor.fetchall()]. *)
Definition select_agents (d : database) : list (string * heartbeat_cell * option Z * string) :=
  map (fun r => (Agents.name r, Agents.last_heartbeat r,
                 Agents.expected_interval_hours r, Agents.status r))
      (agents d).

(** The row of an agent, by name. *)
Definition get_agent (name : string) (d : database) : option Agents.row :=
  find (fun r => (Agents.name r =? name)%string) (agents d).

(** ** slack_notifier.py *)

(** [SlackNotifier._send_message]: a SlackApiError is printed and raised
    again, anything else propagates as it is. *)
Definition _send_message (r : slack_outcome) : M unit :=
  match r with
  | Delivered => ret tt
  | ApiError => raise SlackApiError
  | OtherError => raise SlackClientFailure
  end.

(** [SlackNotifier.send_error_alert]. *)
Definition send_error_alert (r : slack_outcome) (agent_name : string)
    (error_message : option string) : M unit :=
  emit (Dispatch (ErrorAlert agent_name error_message) r) ;;
  except_SlackApiError (_send_message r).

(** [SlackNotifier.send_timeout_alert]. *)
Definition send_timeout_alert (r : slack_outcome) (agent_name : string)
    (last_heartbeat : heartbeat_cell) (hours_overdue : Z) : M unit :=
  emit (Dispatch (TimeoutAlert agent_name last_heartbeat hours_overdue) r) ;;
  except_SlackApiError (_send_message r).

(** ** app.py *)

Module Response.
Record t := {
  status : string;
  agent : string;
  timestamp : datetime
}.
End Response.

(** [heartbeat.status in ["success", "error"]]. *)
Definition status_allowed (s : string) : bool :=
  existsb (String.eqb s) ["success"; "error"]%string.

(** sqlite3 binds a Python int as a signed 64-bit INTEGER and None as NULL. *)
Definition sqlite_integer (n : option Z) : bool :=
  match n with
  | None => true
  | Some z => (- 2 ^ 63 <=? z) && (z <? 2 ^ 63)
  end.

(** Binding the parameters of a statement, which [cursor.execute] does
    before it runs the statement: an int outside the 64-bit range raises
    OverflowError.  Of the values the handler passes only
    [expected_interval_hours] is an int; the texts and the datetime bind. *)
Definition bind_parameters (expected_interval_hours : option Z) : M unit :=
  if sqlite_integer expected_interval_hours then ret tt else raise OverflowError.

(** [receive_heartbeat], the body of [POST /heartbeat]. *)
Definition receive_heartbeat (e : environment) (heartbeat : HeartbeatRequest.t)
    : M Response.t :=
  if negb (status_allowed (HeartbeatRequest.status heartbeat)) then
    raise (HTTPException 400 "Status must be 'success' or 'error'")
  else
    let now := now e in
    (* Update or insert agent *)
    bind_parameters (HeartbeatRequest.expected_interval_hours heartbeat) ;;
    update_db (insert_or_replace_agents (current_timestamp e)
                 (HeartbeatRequest.agent_name heartbeat)
                 (HbIso now)
                 (HeartbeatRequest.expected_interval_hours heartbeat)
                 (HeartbeatRequest.status heartbeat)
                 (HeartbeatRequest.message heartbeat)) ;;
    emit (AgentsWrite (HeartbeatRequest.agent_name heartbeat)) ;;
    (* Log heartbeat *)
    update_db (insert_heartbeat_log
                 (HeartbeatRequest.agent_name heartbeat)
                 (HeartbeatRequest.status heartbeat)
                 (HeartbeatRequest.message heartbeat)
                 now) ;;
    emit (LogAppend (HeartbeatRequest.agent_name heartbeat)) ;;
    emit Commit ;;
    (* Trigger alert on error *)
    (if (HeartbeatRequest.status heartbeat =? "error")%string then
       send_error_alert (slack e)
         (HeartbeatRequest.agent_name heartbeat)
         (HeartbeatRequest.message heartbeat)
     else ret tt) ;;
    ret {| Response.status := "received";
           Response.agent := HeartbeatRequest.agent_name heartbeat;
           Response.timestamp := now |}.

(** ** watchdog.py *)

(** [datetime.now() - last_heartbeat]: mixing a naive and an aware datetime
    raises TypeError. *)
Definition datetime_sub (a : datetime) (b : py_datetime) : M timedelta :=
  match b with
  | Naive t => ret (a - t)
  | Aware _ => raise TypeError
  end.

(** [hours_overdue > expected_interval]: a float against what the INTEGER
    column holds; against None it raises TypeError. *)
Definition float_gt (x : Q) (n : option Z) : M bool :=
  match n with
  | Some n => ret (Float.gt x n)
  | None => raise TypeError
  end.

(** The body of the [for row in cursor.fetchall()] loop. *)
Definition check_agent (e : environment)
    (row : string * heartbeat_cell * option Z * string) : M unit :=
  let '(agent_name, last_heartbeat_str, expected_interval, status) := row in
  if negb (truthy last_heartbeat_str) then ret tt        (* continue *)
  else
    match fromisoformat last_heartbeat_str with
    | None => ret tt                                     (* except: continue *)
    | Some last_heartbeat =>
        time_since_heartbeat <- datetime_sub (now e) last_heartbeat ;;
        let hours_overdue := Float.div (total_seconds time_since_heartbeat) 3600 in
        overdue <- float_gt hours_overdue expected_interval ;;
        if overdue : bool then
          send_timeout_alert (slack e) agent_name last_heartbeat_str
                             (Float.to_int hours_overdue) ;;
          update_db (update_agents_stale agent_name) ;;
          emit (StaleUpdate agent_name) ;;
          emit Commit
        else ret tt
    end.

(** [Watchdog.check_all_agents]; [env i] is what the [i]-th iteration reads
    from outside. *)
Definition check_all_agents (env : nat -> environment) : M unit :=
  fun w => for_each (fun i row => check_agent (env i) row) 0 (select_agents (db w)) w.

(** One turn of the [while self.running] loop of [Watchdog.start]. *)
Definition start_iteration (env : nat -> environment) : M unit :=
  except_Exception (check_all_agents env).

(** ** Runs of the service *)

(** The event loop runs one coroutine at a time and neither handler suspends
    inside its body, so a run is a sequence of whole handler calls and whole
    watchdog iterations. *)
Inductive operation :=
| Heartbeat (e : environment) (heartbeat : HeartbeatRequest.t)
| Sweep (env : nat -> environment).

Definition apply_operation (w : world) (o : operation) : world :=
  match o with
  | Heartbeat e heartbeat => fst (receive_heartbeat e heartbeat w)
  | Sweep env => fst (start_iteration env w)
  end.

Definition run (ops : list operation) (w : world) : world :=
  fold_left apply_operation ops w.

Inductive reachable : world -> Prop :=
| reachable_init : reachable initial_world
| reachable_step w o : reachable w -> reachable (apply_operation w o).

(** ** Reading traces *)


Definition is_timeout_alert (ev : event) : bool :=
  match ev with Dispatch (TimeoutAlert _ _ _) _ => true | _ => false end.

Definition count_events (p : event -> bool) (l : list event) : nat :=
  List.length (filter p l).

(** The agent an event is about ([Commit] names none). *)
Definition event_agent (ev : event) : option string :=
  match ev with
  | AgentsWrite n | LogAppend n | StaleUpdate n => Some n
  | Commit => None
  | Dispatch (ErrorAlert n _) _ | Dispatch (TimeoutAlert n _ _) _ => Some n
  end.

(** [a] occurs in [l], and [b] occurs later. *)
Definition happens_before (a b : event) (l : list event) : Prop :=
  exists l1 l2 l3, l = l1 ++ a :: l2 ++ b :: l3.

(** The overdue test of the sweep, for a parsed heartbeat and a stored
    interval. *)
Definition hours_overdue (now last_heartbeat : datetime) : Q :=
  Float.div (total_seconds (now - last_heartbeat)) 3600.

Definition is_overdue (now last_heartbeat : datetime) (expected_interval : Z) : bool :=
  Float.gt (hours_overdue now last_heartbeat) expected_interval.

(** The exception [receive_heartbeat] raises on a status it does not allow. *)
Definition rejection : exn :=
  HTTPException 400 "Status must be 'success' or 'error'".

(** The report passes the status check and its parameters bind: the handler
    stores it. *)
Definition accepted (hb : HeartbeatRequest.t) : bool :=
  status_allowed (HeartbeatRequest.status hb)
  && sqlite_integer (HeartbeatRequest.expected_interval_hours hb).

(** The database after an accepted report. *)
Definition heartbeat_db (e : environment) (hb : HeartbeatRequest.t) (d : database) : database :=
  insert_heartbeat_log
    (HeartbeatRequest.agent_name hb) (HeartbeatRequest.status hb)
    (HeartbeatRequest.message hb) (now e)
    (insert_or_replace_agents (current_timestamp e)
       (HeartbeatRequest.agent_name hb) (HbIso (now e))
       (HeartbeatRequest.expected_interval_hours hb)
       (HeartbeatRequest.status hb) (HeartbeatRequest.message hb) d).

(** The effects of an accepted report, in the order they happen. *)
Definition heartbeat_events (e : environment) (hb : HeartbeatRequest.t) : list event :=
  [AgentsWrite (HeartbeatRequest.agent_name hb);
   LogAppend (HeartbeatRequest.agent_name hb);
   Commit]
  ++ (if (HeartbeatRequest.status hb =? "error")%string
      then [Dispatch (ErrorAlert (HeartbeatRequest.agent_name hb)
                                 (HeartbeatRequest.message hb)) (slack e)]
      else []).

(** The world after a timeout alert for [agent_name] went out at [Slack]
    outcome [r] and the row was updated. *)
Definition marked_stale (agent_name : string) (last_heartbeat_str : heartbeat_cell)
    (hours : Z) (r : slack_outcome) (w : world) : world :=
  {| db := update_agents_stale agent_name (db w);
     trace := trace w ++ [Dispatch (TimeoutAlert agent_name last_heartbeat_str hours) r;
                          StaleUpdate agent_name; Commit] |}.

(** The world after the Slack client failed inside [send_timeout_alert]. *)
Definition alert_failed (agent_name : string) (last_heartbeat_str : heartbeat_cell)
    (hours : Z) (w : world) : world :=
  {| db := db w;
     trace := trace w ++ [Dispatch (TimeoutAlert agent_name last_heartbeat_str hours)
                                   OtherError] |}.

(** The UNIQUE constraint on [agents.name]. *)
Definition unique_names (d : database) : Prop :=
  NoDup (map Agents.name (agents d)).

(** The sweep as the specification words it, each agent's evaluation isolated
    from the others: an exception raised for one agent is caught before the
    next one is evaluated. *)
Definition check_all_agents_isolated (env : nat -> environment) : M unit :=
  fun w =>
    for_each (fun i row => except_Exception (check_agent (env i) row))
             0 (select_agents (db w)) w.

(** ** Scenarios *)

(** An environment with the clock at [t] and a Slack client that delivers. *)
Definition quiet (t : datetime) : environment :=
  {| now := t; current_timestamp := t / us_per_second; slack := Delivered |}.

Definition report (agent_name status : string) (expected_interval_hours : option Z)
    : HeartbeatRequest.t :=
  {| HeartbeatRequest.agent_name := agent_name;
     HeartbeatRequest.status := status;
     HeartbeatRequest.message := Some "done"%string;
     HeartbeatRequest.expected_interval_hours := expected_interval_hours |}.

(** One agent, hourly, that reported at time 0. *)
Definition hourly_agent : world :=
  fst (receive_heartbeat (quiet 0) (report "backup" "success" (Some 1)) initial_world).

(** Two agents; the first one reported [expected_interval_hours: null]. *)
Definition two_agents : world :=
  run [Heartbeat (quiet 0) (report "backup" "success" None);
       Heartbeat (quiet 1) (report "scraper" "success" (Some 1))]
      initial_world.

(** ** Auxiliary notions for the sweep *)

(** The loop of [check_all_agents] from iteration [i] on. *)
Definition sweep_from (env : nat -> environment) (i : nat)
    (rows : list (string * heartbeat_cell * option Z * string)) : M unit :=
  for_each (fun i row => check_agent (env i) row) i rows.

(** The columns the sweep selects from a row. *)
Definition selected (r : Agents.row) : string * heartbeat_cell * option Z * string :=
  (Agents.name r, Agents.last_heartbeat r, Agents.expected_interval_hours r, Agents.status r).

(** Does the Slack client raise something [send_timeout_alert] and
    [send_error_alert] do not catch? *)
Definition escapes (r : slack_outcome) : bool :=
  match r with
  | OtherError => true
  | Delivered | ApiError => false
  end.

(** The agent a heartbeat operation reports for. *)
Definition operation_agent (o : operation) : option string :=
  match o with
  | Heartbeat _ heartbeat => Some (HeartbeatRequest.agent_name heartbeat)
  | Sweep _ => None
  end.

(** A row as [receive_heartbeat] and the sweep leave it: the heartbeat is the
    text of a datetime and the status is one of the three they write. *)
Definition reported (r : Agents.row) : Prop :=
  (exists t, Agents.last_heartbeat r = HbIso t)
  /\ (Agents.status r = "success"%string
      \/ Agents.status r = "error"%string
      \/ Agents.status r = "stale"%string).

(** The hourly agent two hours after its report, swept once and swept again
    five minutes later. *)
Definition first_tick : world :=
  fst (start_iteration (fun _ => quiet (2 * us_per_hour)) hourly_agent).

Definition second_tick : world :=
  fst (start_iteration (fun _ => quiet (2 * us_per_hour + 300 * us_per_second)) first_tick).

(** A row registered by hand, before any report: no heartbeat yet. *)
Definition never_reported : Agents.row :=
  {| Agents.id := 1;
     Agents.name := "nightly";
     Agents.last_heartbeat := HbNull;
     Agents.expected_interval_hours := Some 24;
     Agents.status := "unknown";
     Agents.last_message := None;
     Agents.created_at := 0 |}.

Definition preregistered : world :=
  {| db := {| agents := [never_reported]; agents_seq := 1;
              heartbeat_log := []; heartbeat_log_seq := 0 |};
     trace := [] |}.

(** Since the trace was [base], nothing has happened to row [r]: it is still
    in the table, as it was, and no event names its agent. *)
Definition left_alone (r : Agents.row) (base : list event) (w : world) : Prop :=
  unique_names (db w)
  /\ In r (agents (db w))
  /\ exists evs,
       trace w = base ++ evs
       /\ Forall (fun ev => event_agent ev <> Some (Agents.name r)) evs.

(** The hourly agent after a second report, five hours after the first. *)
Definition second_report : world :=
  fst (receive_heartbeat (quiet (5 * us_per_hour)) (report "backup" "success" (Some 1))
         hourly_agent).

(** The row of the hourly agent after the first tick. *)
Definition backup_row_stale : Agents.row :=
  {| Agents.id := 1;
     Agents.name := "backup";
     Agents.last_heartbeat := HbIso 0;
     Agents.expected_interval_hours := Some 1;
     Agents.status := "stale";
     Agents.last_message := Some "done"%string;
     Agents.created_at := 0 |}.

(** The two agents three hours later: swept by the watchdog, and swept by the
    isolating sweep of the specification. *)
Definition three_hours_later (_ : nat) : environment := quiet (3 * us_per_hour).

Definition swept : world := fst (start_iteration three_hours_later two_agents).

Definition swept_isolated : world :=
  fst (check_all_agents_isolated three_hours_later two_agents).

(** ** Reading the tables *)



(** The most recent log entry of an agent. *)
Definition latest_entry (agent_name : string) (log : list HeartbeatLog.row)
    : option HeartbeatLog.row :=
  find (fun l => (HeartbeatLog.agent_name l =? agent_name)%string) (rev log).

(** Row [r] shows log entry [l]: same rowid, name, message and time; the
    status is the entry's, unless a sweep has set it to "stale" since. *)
Definition shows (r : Agents.row) (l : HeartbeatLog.row) : Prop :=
  Agents.id r = HeartbeatLog.id l
  /\ Agents.name r = HeartbeatLog.agent_name l
  /\ Agents.last_heartbeat r = HbIso (HeartbeatLog.timestamp l)
  /\ Agents.last_message r = HeartbeatLog.message l
  /\ (Agents.status r = HeartbeatLog.status l \/ Agents.status r = "stale"%string).

(** The registry is the latest view of the log: an agent has a row exactly
    when it has a log entry, and the row shows the most recent one. *)
Definition latest_view (d : database) : Prop :=
  agents_seq d = heartbeat_log_seq d
  /\ 0 <= heartbeat_log_seq d
  /\ (forall l, In l (heartbeat_log d) -> HeartbeatLog.id l <= heartbeat_log_seq d)
  /\ (forall r, In r (agents d) -> Agents.id r <= agents_seq d)
  /\ forall n,
       match get_agent n d, latest_entry n (heartbeat_log d) with
       | Some r, Some l => shows r l
       | None, None => True
       | _, _ => False
       end.

(** ** A sweep that meets no exception *)

(** A row whose evaluation cannot raise by itself: the heartbeat is skipped,
    or it is naive text and the interval is not NULL. *)
Definition evaluable (r : Agents.row) : Prop :=
  match Agents.last_heartbeat r with
  | HbIsoAware _ => False
  | HbIso _ => Agents.expected_interval_hours r <> None
  | HbNull | HbEmpty | HbGarbage => True
  end.

(** Is the row overdue at the clock reading of [e]? *)
Definition due (e : environment) (r : Agents.row) : bool :=
  match Agents.last_heartbeat r, Agents.expected_interval_hours r with
  | HbIso t, Some iv => is_overdue (now e) t iv
  | _, _ => false
  end.

(** The table after a sweep that evaluated every row; [env i] belongs to the
    row at position [i]. *)
Fixpoint swept_rows (env : nat -> environment) (i : nat) (rows : list Agents.row)
    : list Agents.row :=
  match rows with
  | [] => []
  | r :: rows' =>
      (if due (env i) r then set_status "stale" r else r)
      :: swept_rows env (S i) rows'
  end.

(** The events of evaluating one row: none, or the alert followed by the
    update and its commit. *)
Definition row_events (e : environment) (r : Agents.row) : list event :=
  match Agents.last_heartbeat r with
  | HbIso t =>
      if due e r then
        [Dispatch (TimeoutAlert (Agents.name r) (HbIso t)
                     (Float.to_int (hours_overdue (now e) t)))
                  (slack e);
         StaleUpdate (Agents.name r); Commit]
      else []
  | _ => []
  end.

(** The events of such a sweep. *)
Fixpoint swept_events (env : nat -> environment) (i : nat) (rows : list Agents.row)
    : list event :=
  match rows with
  | [] => []
  | r :: rows' => row_events (env i) r ++ swept_events env (S i) rows'
  end.

Definition with_agents (rows : list Agents.row) (d : database) : database :=
  {| agents := rows;
     agents_seq := agents_seq d;
     heartbeat_log := heartbeat_log d;
     heartbeat_log_seq := heartbeat_log_seq d |}.

(** The number of rows of a table that are overdue, each at its own clock
    reading. *)
Fixpoint count_due (env : nat -> environment) (i : nat) (rows : list Agents.row) : nat :=
  match rows with
  | [] => 0%nat
  | r :: rows' => ((if due (env i) r then 1 else 0) + count_due env (S i) rows')%nat
  end.

(** Two agents that reported a second apart: "backup" hourly, "scraper" every
    six hours. *)
Definition fleet : world :=
  run [Heartbeat (quiet 0) (report "backup" "success" (Some 1));
       Heartbeat (quiet 1) (report "scraper" "error" (Some 6))]
      initial_world.

Definition fleet_rows : list Agents.row :=
  [ {| Agents.id := 1;
       Agents.name := "backup";
       Agents.last_heartbeat := HbIso 0;
       Agents.expected_interval_hours := Some 1;
       Agents.status := "success";
       Agents.last_message := Some "done"%string;
       Agents.created_at := 0 |};
    {| Agents.id := 2;
       Agents.name := "scraper";
       Agents.last_heartbeat := HbIso 1;
       Agents.expected_interval_hours := Some 6;
       Agents.status := "error";
       Agents.last_message := Some "done"%string;
       Agents.created_at := 0 |} ].

(** ** app.py: authentication and the status endpoint *)

(** [verify_auth], the dependency of [POST /heartbeat]; [AUTH_TOKEN] is the
    module's setting, [x_auth_token] the request header. *)
Definition verify_auth (AUTH_TOKEN x_auth_token : string) : M bool :=
  if negb (x_auth_token =? AUTH_TOKEN)%string then
    raise (HTTPException 401 "Invalid auth token")
  else ret true.

(** [POST /heartbeat]: the dependency is resolved first, then the handler
    runs. *)
Definition post_heartbeat (AUTH_TOKEN x_auth_token : string) (e : environment)
    (heartbeat : HeartbeatRequest.t) : M Response.t :=
  verify_auth AUTH_TOKEN x_auth_token ;;
  receive_heartbeat e heartbeat.

Module AgentStatus.
(** An entry of the list [GET /status] returns. *)
Record t := {
  name : string;
  last_heartbeat : heartbeat_cell;
  expected_interval_hours : option Z;
  status : string;
  last_message : option string
}.
End AgentStatus.

Module StatusResponse.
Record t := {
  agents : list AgentStatus.t;
  total : nat
}.
End StatusResponse.

Definition status_entry (row : Agents.row) : AgentStatus.t :=
  {| AgentStatus.name := Agents.name row;
     AgentStatus.last_heartbeat := Agents.last_heartbeat row;
     AgentStatus.expected_interval_hours := Agents.expected_interval_hours row;
     AgentStatus.status := Agents.status row;
     AgentStatus.last_message := Agents.last_message row |}.

(** [get_status].  The order SQLite gives the rows for
    [ORDER BY last_heartbeat DESC] depends on the stored bytes, which the
    model of the column does not keep; it is taken as a parameter. *)
Definition get_status (order_by_last_heartbeat_desc : list Agents.row -> list Agents.row)
    : M StatusResponse.t :=
  fun w =>
    let rows := order_by_last_heartbeat_desc (agents (db w)) in
    let agents := map status_entry rows in
    (w, Returned {| StatusResponse.agents := agents;
                    StatusResponse.total := List.length agents |}).

(** ** slack_notifier.py: the daily summary *)

Inductive icon :=
| CheckMark      (* the green check mark *)
| Siren          (* the rotating light *)
| AlarmClock.    (* the alarm clock *)

Module Summary.
(** What the blocks of the summary show: the four counts of the header
    section and the lines of the agent list. *)
Record t := {
  total : nat;
  healthy : nat;
  errors : nat;
  stale : nat;
  agent_list : list (icon * string)
}.
End Summary.

(** [sum(1 for a in agents_status if a["status"] == s)]. *)
Definition count_status (s : string) (agents_status : list AgentStatus.t) : nat :=
  List.length (filter (fun a => (AgentStatus.status a =? s)%string) agents_status).

(** The icon in front of an agent's name. *)
Definition status_icon (status : string) : icon :=
  if (status =? "success")%string then CheckMark
  else if (status =? "error")%string then Siren
  else AlarmClock.

(** The blocks [send_daily_summary] builds; the entries are dicts with the
    keys of [get_status]. *)
Definition daily_summary_blocks (agents_status : list AgentStatus.t) : Summary.t :=
  {| Summary.total := List.length agents_status;
     Summary.healthy := count_status "success" agents_status;
     Summary.errors := count_status "error" agents_status;
     Summary.stale := count_status "stale" agents_status;
     Summary.agent_list :=
       map (fun a => (status_icon (AgentStatus.status a), AgentStatus.name a))
           agents_status |}.

(** [SlackNotifier.send_daily_summary]. *)
Definition send_daily_summary (r : slack_outcome) (agents_status : list AgentStatus.t)
    : Summary.t * M unit :=
  (daily_summary_blocks agents_status, except_SlackApiError (_send_message r)).

Definition count_icon (i : icon) (lines : list (icon * string)) : nat :=
  List.length
    (filter (fun l => match fst l, i with
                      | CheckMark, CheckMark | Siren, Siren | AlarmClock, AlarmClock => true
                      | _, _ => false
                      end) lines).

(** The statuses the summary counts. *)
Definition counted (status : string) : bool :=
  ((status =? "success") || (status =? "error") || (status =? "stale"))%string.

(** ** agent_sdk *)

Module Payload.
(** The JSON body of a heartbeat. *)
Record t := {
  agent_name : string;
  status : string;
  message : string;
  expected_interval_hours : Z
}.
End Payload.

Module Post.
(** A call of [requests.post] on the hub's /heartbeat. *)
Record t := {
  x_auth_token : string;
  json : Payload.t
}.
End Post.

(** A raised exception, as the SDK looks at it. *)
Record py_exception := {
  is_Exception : bool;          (* isinstance(e, Exception): not for SystemExit, KeyboardInterrupt *)
  is_RequestException : bool;   (* isinstance(e, requests.exceptions.RequestException) *)
  str : string;                 (* str(e) *)
  format_exc : string           (* the formatted traceback *)
}.

Inductive py_result (A : Type) :=
| PyReturn (a : A)
| PyRaise (x : py_exception).
Arguments PyReturn {A} a.
Arguments PyRaise {A} x.

(** How one [requests.post] ends: a response came back (its status code is
    never looked at), or the call raised. *)
Inductive post_outcome :=
| Responded
| PostRaises (x : py_exception).

(** Client code: it adds to the posts made so far and returns or raises. *)
Definition C (A : Type) : Type := list Post.t -> list Post.t * py_result A.

Definition pure {A} (a : A) : C A := fun posts => (posts, PyReturn a).
Definition throw {A} (x : py_exception) : C A := fun posts => (posts, PyRaise x).
Definition and_then {A B} (c : C A) (k : A -> C B) : C B :=
  fun posts =>
    match c posts with
    | (posts', PyReturn a) => k a posts'
    | (posts', PyRaise x) => (posts', PyRaise x)
    end.

(** Calling the user's function: its outcome is given. *)
Definition call {A} (func : py_result A) : C A := fun posts => (posts, func).

(** [try: body  except Exception as e: handler]. *)
Definition try_except_Exception {A} (body : C A) (handler : py_exception -> C A) : C A :=
  fun posts =>
    match body posts with
    | (posts', PyRaise e) =>
        if is_Exception e then handler e posts' else (posts', PyRaise e)
    | r => r
    end.

(** [requests.post]; [net i] is how the call after [i] earlier ones ends. *)
Definition requests_post (net : nat -> post_outcome) (p : Post.t) : C unit :=
  fun posts =>
    (posts ++ [p],
     match net (List.length posts) with
     | Responded => PyReturn tt
     | PostRaises x => PyRaise x
     end).

(** [send_heartbeat]: a RequestException is printed and swallowed. *)
Definition send_heartbeat (AUTH_TOKEN : string) (net : nat -> post_outcome)
    (agent_name status message : string) (expected_interval_hours : Z) : C unit :=
  let payload :=
    {| Payload.agent_name := agent_name;
       Payload.status := status;
       Payload.message := message;
       Payload.expected_interval_hours := expected_interval_hours |} in
  fun posts =>
    match requests_post net {| Post.x_auth_token := AUTH_TOKEN; Post.json := payload |}
                        posts with
    | (posts', PyRaise x) =>
        if is_RequestException x then (posts', PyReturn tt) else (posts', PyRaise x)
    | r => r
    end.

Definition nl : string := String (Ascii.ascii_of_nat 10) "".

(** [f"Exception: {str(e)}\n\nTraceback:\n{error_traceback}"]. *)
Definition error_message (e : py_exception) : string :=
  ("Exception: " ++ str e ++ nl ++ nl ++ "Traceback:" ++ nl ++ format_exc e)%string.

(** The wrapper [monitor(agent_name, expected_interval_hours)] puts around
    [func]. *)
Definition monitor {A} (AUTH_TOKEN : string) (net : nat -> post_outcome)
    (agent_name : string) (expected_interval_hours : Z) (func : py_result A) : C A :=
  try_except_Exception
    (and_then (call func) (fun result =>
     and_then (send_heartbeat AUTH_TOKEN net agent_name "success"
                 "Script completed successfully" expected_interval_hours) (fun _ =>
     pure result)))
    (fun e =>
     and_then (send_heartbeat AUTH_TOKEN net agent_name "error"
                 (error_message e) expected_interval_hours) (fun _ =>
     throw e)).

Module MonitorContext.
Record t := {
  agent_name : string;
  expected_interval_hours : Z
}.
End MonitorContext.

(** [MonitorContext.__exit__]; [exc_val] is None when the block ended
    normally.  The return value tells the with statement whether to
    suppress the exception. *)
Definition __exit__ (AUTH_TOKEN : string) (net : nat -> post_outcome)
    (self : MonitorContext.t) (exc_val : option py_exception) : C bool :=
  and_then
    (match exc_val with
     | None =>
         send_heartbeat AUTH_TOKEN net (MonitorContext.agent_name self) "success"
           "Script completed successfully" (MonitorContext.expected_interval_hours self)
     | Some e =>
         send_heartbeat AUTH_TOKEN net (MonitorContext.agent_name self) "error"
           (error_message e) (MonitorContext.expected_interval_hours self)
     end)
    (fun _ => pure false).

(** [with MonitorContext(...): body]: the result is None when an exception
    was suppressed. *)
Definition with_MonitorContext {A} (AUTH_TOKEN : string) (net : nat -> post_outcome)
    (self : MonitorContext.t) (body : py_result A) : C (option A) :=
  match body with
  | PyReturn a =>
      and_then (__exit__ AUTH_TOKEN net self None) (fun _ => pure (Some a))
  | PyRaise x =>
      and_then (__exit__ AUTH_TOKEN net self (Some x)) (fun suppress =>
      if suppress : bool then pure None else throw x)
  end.

(** The request body as pydantic hands it to the handler: the SDK sends all
    four fields, with the declared types. *)
Definition parse_body (p : Payload.t) : HeartbeatRequest.t :=
  {| HeartbeatRequest.agent_name := Payload.agent_name p;
     HeartbeatRequest.status := Payload.status p;
     HeartbeatRequest.message := Some (Payload.message p);
     HeartbeatRequest.expected_interval_hours := Some (Payload.expected_interval_hours p) |}.

(** The hub serving a post of the SDK. *)
Definition serve (AUTH_TOKEN : string) (e : environment) (p : Post.t) : M Response.t :=
  post_heartbeat AUTH_TOKEN (Post.x_auth_token p) e (parse_body (Post.json p)).

(** A network on which [requests.post] raises nothing but
    RequestException. *)
Definition only_request_exceptions (net : nat -> post_outcome) : Prop :=
  forall i, match net i with
            | Responded => True
            | PostRaises x => is_RequestException x = true
            end.

(** [run_scraper] of example_agent.py: it returns a dict. *)
Definition run_scraper : py_result (string * Z) := PyReturn ("ok"%string, 42).

Definition always_responds (_ : nat) : post_outcome := Responded.

Definition value_error : py_exception :=
  {| is_Exception := true; is_RequestException := false;
     str := "Failed to fetch data from API"; format_exc := "ValueError" |}.

Definition system_exit : py_exception :=
  {| is_Exception := false; is_RequestException := false;
     str := "1"; format_exc := "SystemExit" |}.

(** ** Fresh and overdue rows, in microseconds *)

(** The sweep can read the row, and at the clock reading of [e] the agent's
    silence has not passed its interval (and is short enough for the float
    test to be exact); rows without a readable heartbeat count as fresh. *)
Definition within_interval (e : environment) (r : Agents.row) : Prop :=
  match Agents.last_heartbeat r, Agents.expected_interval_hours r with
  | HbIso t, Some iv =>
      Z.abs (now e - t) < 2 ^ 32 * us_per_second /\ now e - t <= iv * us_per_hour
  | HbIso _, None => False
  | HbIsoAware _, _ => False
  | _, _ => True
  end.

(** The agents ["backup"] and ["scraper"] a quarter of an hour after their
    reports. *)
Definition quarter_past (_ : nat) : environment := quiet (us_per_hour / 4).


(** ** A row that stops every sweep *)

(** The evaluation of the row raises TypeError before it has any effect: the
    heartbeat text carries a UTC offset, or it is naive and the interval is
    NULL. *)
Definition poisoned (a : Agents.row) : Prop :=
  match Agents.last_heartbeat a with
  | HbIsoAware _ => True
  | HbIso _ => Agents.expected_interval_hours a = None
  | HbNull | HbEmpty | HbGarbage => False
  end.

(** Row [a] comes before row [r] in the table. *)
Definition precedes (a r : Agents.row) (d : database) : Prop :=
  exists pre mid post, agents d = pre ++ a :: mid ++ r :: post.

(** Since the trace was [base], the sweeps have not reached row [r]: it is
    in the table as it was, behind [a], and no event names its agent. *)
Definition starved (a r : Agents.row) (base : list event) (w : world) : Prop :=
  unique_names (db w)
  /\ precedes a r (db w)
  /\ exists evs,
       trace w = base ++ evs
       /\ Forall (fun ev => event_agent ev <> Some (Agents.name r)) evs.

(** The two agents of [two_agents], as rows. *)
Definition null_interval_row : Agents.row :=
  {| Agents.id := 1;
     Agents.name := "backup";
     Agents.last_heartbeat := HbIso 0;
     Agents.expected_interval_hours := None;
     Agents.status := "success";
     Agents.last_message := Some "done"%string;
     Agents.created_at := 0 |}.

Definition scraper_row : Agents.row :=
  {| Agents.id := 2;
     Agents.name := "scraper";
     Agents.last_heartbeat := HbIso 1;
     Agents.expected_interval_hours := Some 1;
     Agents.status := "success";
     Agents.last_message := Some "done"%string;
     Agents.created_at := 0 |}.

(** A year of sweeps, one every five minutes or not, and a new agent. *)
Definition a_year_later (_ : nat) : environment := quiet (8760 * us_per_hour).

(** * Properties *)

(** ** The heartbeat handler *)

Lemma status_allowed_iff s :
  status_allowed s = true <-> s = "success"%string \/ s = "error"%string.
Proof.
  unfold status_allowed; cbn [existsb].
  rewrite orb_false_r, orb_true_iff, !String.eqb_eq. tauto.
Qed.

Lemma status_allowed_false_iff s :
  status_allowed s = false <-> s <> "success"%string /\ s <> "error"%string.
Proof.
  rewrite <- not_true_iff_false, status_allowed_iff. tauto.
Qed.


Lemma accepted_iff hb :
  accepted hb = true <->
  status_allowed (HeartbeatRequest.status hb) = true
  /\ sqlite_integer (HeartbeatRequest.expected_interval_hours hb) = true.
Proof. apply andb_true_iff. Qed.

Lemma receive_heartbeat_rejected e hb w :
  status_allowed (HeartbeatRequest.status hb) = false ->
  receive_heartbeat e hb w = (w, Raised rejection).
Proof.
  intros H. unfold receive_heartbeat. rewrite H. reflexivity.
Qed.

(** An interval that does not fit 64 bits: the first [execute] raises, and
    nothing has been written or sent. *)
Lemma receive_heartbeat_overflow e hb w :
  status_allowed (HeartbeatRequest.status hb) = true ->
  sqlite_integer (HeartbeatRequest.expected_interval_hours hb) = false ->
  receive_heartbeat e hb w = (w, Raised OverflowError).
Proof.
  intros H1 H2. unfold receive_heartbeat. rewrite H1. cbn [negb].
  unfold bind at 1. unfold bind_parameters. rewrite H2. reflexivity.
Qed.

Lemma receive_heartbeat_refused e hb w :
  accepted hb = false -> fst (receive_heartbeat e hb w) = w.
Proof.
  unfold accepted. intros H.
  destruct (status_allowed (HeartbeatRequest.status hb)) eqn:H1.
  - cbn [andb] in H. now rewrite receive_heartbeat_overflow.
  - now rewrite receive_heartbeat_rejected.
Qed.

Lemma receive_heartbeat_accepted e hb w :
  accepted hb = true ->
  fst (receive_heartbeat e hb w) =
    {| db := heartbeat_db e hb (db w); trace := trace w ++ heartbeat_events e hb |}.
Proof.
  intros H. apply accepted_iff in H. destruct H as [H1 H2].
  unfold receive_heartbeat, heartbeat_events, heartbeat_db. rewrite H1.
  cbn [negb]. unfold bind_parameters. rewrite H2.
  unfold bind, update_db, emit, send_error_alert, except_SlackApiError,
    _send_message, bind, emit, ret, raise.
  cbn [db trace fst snd].
  destruct (HeartbeatRequest.status hb =? "error")%string;
    [destruct (slack e)|]; cbn [fst db trace];
    rewrite <- ?app_assoc; reflexivity.
Qed.

Lemma receive_heartbeat_result e hb w :
  accepted hb = true ->
  snd (receive_heartbeat e hb w) =
    if ((HeartbeatRequest.status hb =? "error")%string
        && match slack e with OtherError => true | _ => false end)%bool
    then Raised SlackClientFailure
    else Returned {| Response.status := "received";
                     Response.agent := HeartbeatRequest.agent_name hb;
                     Response.timestamp := now e |}.
Proof.
  intros H. apply accepted_iff in H. destruct H as [H1 H2].
  unfold receive_heartbeat. rewrite H1.
  cbn [negb]. unfold bind_parameters. rewrite H2.
  unfold bind, update_db, emit, send_error_alert, except_SlackApiError,
    _send_message, bind, emit, ret, raise.
  destruct (HeartbeatRequest.status hb =? "error")%string;
    [destruct (slack e)|]; reflexivity.
Qed.

Lemma find_after_replace n (r0 : Agents.row) l :
  Agents.name r0 = n ->
  find (fun r => (Agents.name r =? n)%string)
       (filter (fun r => negb (Agents.name r =? n)%string) l ++ [r0]) = Some r0.
Proof.
  intros H. induction l as [|r l IH]; cbn [filter app find].
  - now rewrite H, String.eqb_refl.
  - destruct (Agents.name r =? n)%string eqn:E; cbn [negb app find].
    + exact IH.
    + rewrite E. exact IH.
Qed.

Lemma get_agent_insert_or_replace cts n c iv st msg d :
  get_agent n (insert_or_replace_agents cts n c iv st msg d) =
    Some {| Agents.id := next_rowid (agents_seq d) Agents.id (agents d);
            Agents.name := n;
            Agents.last_heartbeat := c;
            Agents.expected_interval_hours := iv;
            Agents.status := st;
            Agents.last_message := msg;
            Agents.created_at := cts |}.
Proof.
  unfold get_agent, insert_or_replace_agents; cbn [agents].
  now apply find_after_replace.
Qed.

Lemma agents_heartbeat_db e hb d :
  agents (heartbeat_db e hb d) =
    filter (fun r => negb (Agents.name r =? HeartbeatRequest.agent_name hb)%string) (agents d)
    ++ [ {| Agents.id := next_rowid (agents_seq d) Agents.id (agents d);
            Agents.name := HeartbeatRequest.agent_name hb;
            Agents.last_heartbeat := HbIso (now e);
            Agents.expected_interval_hours := HeartbeatRequest.expected_interval_hours hb;
            Agents.status := HeartbeatRequest.status hb;
            Agents.last_message := HeartbeatRequest.message hb;
            Agents.created_at := current_timestamp e |} ].
Proof. reflexivity. Qed.

Lemma get_agent_heartbeat_db e hb d :
  get_agent (HeartbeatRequest.agent_name hb) (heartbeat_db e hb d) =
    Some {| Agents.id := next_rowid (agents_seq d) Agents.id (agents d);
            Agents.name := HeartbeatRequest.agent_name hb;
            Agents.last_heartbeat := HbIso (now e);
            Agents.expected_interval_hours := HeartbeatRequest.expected_interval_hours hb;
            Agents.status := HeartbeatRequest.status hb;
            Agents.last_message := HeartbeatRequest.message hb;
            Agents.created_at := current_timestamp e |}.
Proof.
  unfold get_agent. rewrite agents_heartbeat_db. now apply find_after_replace.
Qed.

Lemma max_rowid_upper {R} (rowid : R -> Z) (rows : list R) (r : R) :
  In r rows -> rowid r <= max_rowid rowid rows.
Proof.
  induction rows as [|x rows IH]; cbn [In max_rowid fold_right]; [tauto|].
  fold (max_rowid rowid rows). intros [->|H]; [|specialize (IH H)]; lia.
Qed.

(** A replaced row never keeps its rowid: the new one is larger than every
    rowid in the table. *)
Lemma replace_takes_fresh_rowid e hb w r r' :
  accepted hb = true ->
  In r (agents (db w)) ->
  get_agent (HeartbeatRequest.agent_name hb) (db (fst (receive_heartbeat e hb w))) = Some r' ->
  Agents.id r < Agents.id r' /\ Agents.created_at r' = current_timestamp e.
Proof.
  intros Hs Hin. rewrite (receive_heartbeat_accepted _ _ _ Hs). cbn [db].
  rewrite get_agent_heartbeat_db. intros [= <-]. cbn [Agents.id Agents.created_at].
  split; [|reflexivity].
  unfold next_rowid. pose proof (max_rowid_upper Agents.id _ _ Hin). lia.
Qed.

(** ** One agent of the sweep *)

Lemma check_agent_unparsed e n c iv st w :
  fromisoformat c = None ->
  check_agent e (n, c, iv, st) w = (w, Returned tt).
Proof. destruct c; intros H; try discriminate H; reflexivity. Qed.

Lemma check_agent_aware e n t iv st w :
  check_agent e (n, HbIsoAware t, iv, st) w = (w, Raised TypeError).
Proof. reflexivity. Qed.

Lemma check_agent_null_interval e n t st w :
  check_agent e (n, HbIso t, None, st) w = (w, Raised TypeError).
Proof. reflexivity. Qed.

Lemma check_agent_naive e n t iv st w :
  check_agent e (n, HbIso t, Some iv, st) w =
    if is_overdue (now e) t iv then
      match slack e with
      | OtherError =>
          (alert_failed n (HbIso t) (Float.to_int (hours_overdue (now e) t)) w,
           Raised SlackClientFailure)
      | r =>
          (marked_stale n (HbIso t) (Float.to_int (hours_overdue (now e) t)) r w,
           Returned tt)
      end
    else (w, Returned tt).
Proof.
  unfold check_agent, is_overdue, hours_overdue.
  cbn [truthy negb fromisoformat datetime_sub float_gt].
  unfold bind at 1. unfold ret at 1. unfold bind at 1. unfold ret at 1.
  destruct (Float.gt _ iv); [|reflexivity].
  unfold send_timeout_alert, marked_stale, alert_failed.
  destruct (slack e);
    unfold bind, emit, update_db, except_SlackApiError, _send_message, ret, raise;
    cbn [db trace]; rewrite <- ?app_assoc; reflexivity.
Qed.

(** The status column of the snapshot is read and never looked at. *)
Lemma check_agent_ignores_status e n c iv st st' w :
  check_agent e (n, c, iv, st) w = check_agent e (n, c, iv, st') w.
Proof. reflexivity. Qed.

(** ** Claims about the heartbeat handler *)







(** C6, as the code has it: a report is rejected with status code 400 exactly
    when its status is neither "success" nor "error"; no other field is
    looked at; a rejected report changes neither table and has no effect. *)
Theorem C6_rejects_exactly_bad_status e hb w :
  (snd (receive_heartbeat e hb w) = Raised rejection
   <-> HeartbeatRequest.status hb <> "success"%string
       /\ HeartbeatRequest.status hb <> "error"%string)
  /\ (snd (receive_heartbeat e hb w) = Raised rejection ->
      fst (receive_heartbeat e hb w) = w).
Proof.
  rewrite <- status_allowed_false_iff.
  destruct (status_allowed (HeartbeatRequest.status hb)) eqn:Hs;
    [destruct (sqlite_integer (HeartbeatRequest.expected_interval_hours hb)) eqn:Hi|].
  - rewrite (receive_heartbeat_result e hb w) by (apply accepted_iff; now split).
    assert (Hno : (if ((HeartbeatRequest.status hb =? "error")%string
                       && match slack e with OtherError => true | _ => false end)%bool
                   then Raised SlackClientFailure
                   else Returned {| Response.status := "received";
                                    Response.agent := HeartbeatRequest.agent_name hb;
                                    Response.timestamp := now e |})
                  <> Raised rejection)
      by (destruct (_ && _)%bool; discriminate).
    split; [split|]; intros H; try discriminate H; contradiction.
  - rewrite (receive_heartbeat_overflow _ _ _ Hs Hi). unfold rejection. cbn [fst snd].
    split; [split|]; intros H; try discriminate H; reflexivity.
  - rewrite (receive_heartbeat_rejected _ _ _ Hs). cbn [fst snd]. tauto.
Qed.

Lemma C6_rejects_exactly_bad_status_witness :
  fst (receive_heartbeat (quiet 0) (report "backup" "stale" (Some 1)) hourly_agent)
  = hourly_agent.
Proof.
  apply (proj2 (C6_rejects_exactly_bad_status
                  (quiet 0) (report "backup" "stale" (Some 1)) hourly_agent)).
  reflexivity.
Defined.

(** C6 as stated fails: a report whose agent_name is the empty string is
    accepted, and an agent with the empty name is registered. *)
Lemma C6_empty_name_is_accepted :
  snd (receive_heartbeat (quiet 0) (report "" "success" (Some 1)) initial_world)
    = Returned {| Response.status := "received"; Response.agent := "";
                  Response.timestamp := 0 |}
  /\ option_map Agents.status
       (get_agent "" (db (fst (receive_heartbeat (quiet 0) (report "" "success" (Some 1))
                                  initial_world))))
     = Some "success"%string.
Proof. split; reflexivity. Qed.

(** C9 fails on the code: the second report of an agent deletes its row and
    inserts a new one, so the row's id and created_at change. *)
Lemma C9_replace_renews_id_and_created_at :
  option_map Agents.id (get_agent "backup" (db hourly_agent)) = Some 1
  /\ option_map Agents.id (get_agent "backup" (db second_report)) = Some 2
  /\ option_map Agents.created_at (get_agent "backup" (db hourly_agent)) = Some 0
  /\ option_map Agents.created_at (get_agent "backup" (db second_report)) = Some 18000
  /\ option_map Agents.name (get_agent "backup" (db second_report)) = Some "backup"%string.
Proof. repeat split. Qed.

(** ** The loop of the sweep *)

Lemma check_all_agents_unfold env w :
  check_all_agents env w = sweep_from env 0 (select_agents (db w)) w.
Proof. reflexivity. Qed.

Lemma sweep_from_cons env i row rows w :
  sweep_from env i (row :: rows) w =
    match check_agent (env i) row w with
    | (w', Returned _) => sweep_from env (S i) rows w'
    | (w', Raised ex) => (w', Raised ex)
    end.
Proof. reflexivity. Qed.

Lemma sweep_from_app env rows1 :
  forall i rows2 w,
    sweep_from env i (rows1 ++ rows2) w =
      match sweep_from env i rows1 w with
      | (w', Returned _) => sweep_from env (i + List.length rows1)%nat rows2 w'
      | (w', Raised ex) => (w', Raised ex)
      end.
Proof.
  induction rows1 as [|row rows1 IH]; intros i rows2 w.
  - cbn [app List.length]. now rewrite Nat.add_0_r.
  - cbn [app List.length]. rewrite !sweep_from_cons.
    destruct (check_agent (env i) row w) as [w' [[]|ex]]; [|reflexivity].
    rewrite IH. now rewrite Nat.add_succ_comm.
Qed.

(** A property every evaluation of a snapshot row preserves holds after the
    loop, however far it got. *)
Lemma sweep_from_preserves (P : world -> Prop) env rows :
  (forall e row w, In row rows -> P w -> P (fst (check_agent e row w))) ->
  forall i w, P w -> P (fst (sweep_from env i rows w)).
Proof.
  induction rows as [|row rows IH]; intros Hstep i w Hw.
  - exact Hw.
  - rewrite sweep_from_cons.
    pose proof (Hstep (env i) row w (or_introl eq_refl) Hw) as H1.
    destruct (check_agent (env i) row w) as [w' [[]|ex]]; cbn [fst] in *.
    + apply IH; [|exact H1]. intros e' row' w0 Hin. apply Hstep. now right.
    + exact H1.
Qed.

Lemma except_Exception_world c w :
  fst (except_Exception c w) = fst (c w).
Proof.
  unfold except_Exception. now destruct (c w) as [w' [[]|ex]].
Qed.

Lemma except_Exception_returns c w :
  snd (except_Exception c w) = Returned tt.
Proof.
  unfold except_Exception. now destruct (c w) as [w' [[]|ex]].
Qed.

(** What one evaluation can do: it appends events about its own agent (and
    commits), and it either leaves the tables alone or runs the UPDATE for
    its own agent. *)
Lemma check_agent_effect e n c iv st w :
  exists evs,
    trace (fst (check_agent e (n, c, iv, st) w)) = trace w ++ evs
    /\ Forall (fun ev => event_agent ev = Some n \/ ev = Commit) evs
    /\ (db (fst (check_agent e (n, c, iv, st) w)) = db w
        \/ db (fst (check_agent e (n, c, iv, st) w)) = update_agents_stale n (db w)).
Proof.
  assert (Hnone : exists evs : list event,
             trace w = trace w ++ evs
             /\ Forall (fun ev => event_agent ev = Some n \/ ev = Commit) evs
             /\ (db w = db w \/ db w = update_agents_stale n (db w)))
    by (exists []; rewrite app_nil_r; auto).
  destruct c as [| |t|t|]; try exact Hnone.
  destruct iv as [iv|]; [|exact Hnone].
  rewrite check_agent_naive.
  destruct (is_overdue (now e) t iv); [|exact Hnone].
  destruct (slack e); cbn [fst marked_stale alert_failed db trace];
    eexists; (split; [reflexivity|]);
    (split; [repeat (apply Forall_cons; [cbn; auto|]); apply Forall_nil|auto]).
Qed.

(** ** The UPDATE and the tables *)

Lemma update_agents_stale_names n d :
  map Agents.name (agents (update_agents_stale n d)) = map Agents.name (agents d).
Proof.
  cbn [update_agents_stale agents]. rewrite map_map. apply map_ext.
  intros r. now destruct (Agents.name r =? n)%string.
Qed.

Lemma update_agents_stale_other n d r :
  In r (agents d) -> Agents.name r <> n -> In r (agents (update_agents_stale n d)).
Proof.
  intros Hin Hne. cbn [update_agents_stale agents]. apply in_map_iff.
  exists r. split; [|exact Hin].
  apply String.eqb_neq in Hne. now rewrite Hne.
Qed.

Lemma update_agents_stale_reported n d :
  Forall reported (agents d) -> Forall reported (agents (update_agents_stale n d)).
Proof.
  intros H. cbn [update_agents_stale agents]. apply Forall_map.
  revert H. apply Forall_impl. intros r [Hhb Hst].
  destruct (Agents.name r =? n)%string; [|now split].
  split; [exact Hhb|]. cbn. auto.
Qed.

Lemma heartbeat_db_reported e hb d :
  status_allowed (HeartbeatRequest.status hb) = true ->
  Forall reported (agents d) -> Forall reported (agents (heartbeat_db e hb d)).
Proof.
  intros Hs H. rewrite agents_heartbeat_db. apply Forall_app. split.
  - apply Forall_forall. intros r Hr. apply filter_In in Hr.
    rewrite Forall_forall in H. now apply H.
  - constructor; [|constructor]. split; cbn.
    + now exists (now e).
    + apply status_allowed_iff in Hs. tauto.
Qed.

Lemma heartbeat_db_unique e hb d :
  unique_names d -> unique_names (heartbeat_db e hb d).
Proof.
  unfold unique_names. intros H. rewrite agents_heartbeat_db, map_app. cbn [map Agents.name].
  apply NoDup_app.
  - induction (agents d) as [|r l IH]; cbn [filter map]; [constructor|].
    cbn [map] in H. inversion H as [|? ? Hnotin Hl]; subst.
    destruct (negb _); [|now apply IH].
    cbn [map]. constructor; [|now apply IH].
    intros Hin. apply Hnotin. apply in_map_iff in Hin. destruct Hin as (x & Hx & Hin).
    apply filter_In in Hin. apply in_map_iff. exists x. tauto.
  - constructor; [intros []|constructor].
  - intros a Hin [<-|[]]. apply in_map_iff in Hin. destruct Hin as (x & Hx & Hin).
    apply filter_In in Hin. destruct Hin as [_ Hneq].
    rewrite Hx, String.eqb_refl in Hneq. discriminate Hneq.
Qed.

Lemma heartbeat_db_other e hb d r :
  In r (agents d) -> Agents.name r <> HeartbeatRequest.agent_name hb ->
  In r (agents (heartbeat_db e hb d)).
Proof.
  intros Hin Hne. rewrite agents_heartbeat_db. apply in_or_app. left.
  apply filter_In. split; [exact Hin|].
  apply String.eqb_neq in Hne. now rewrite Hne.
Qed.

Lemma unique_names_same_row d r r' :
  unique_names d -> In r (agents d) -> In r' (agents d) ->
  Agents.name r' = Agents.name r -> r' = r.
Proof.
  unfold unique_names. induction (agents d) as [|x l IH]; cbn [map In]; [tauto|].
  intros Hnd Hr Hr' Hname. inversion Hnd as [|? ? Hnotin Hl]; subst.
  destruct Hr as [<-|Hr], Hr' as [<-|Hr'].
  - reflexivity.
  - exfalso. apply Hnotin. rewrite <- Hname. now apply in_map.
  - exfalso. apply Hnotin. rewrite Hname. now apply in_map.
  - now apply IH.
Qed.

(** ** Rows the sweep cannot read *)

Lemma check_agent_leaves_alone r base e n c iv st w :
  (n = Agents.name r -> fromisoformat c = None) ->
  left_alone r base w ->
  left_alone r base (fst (check_agent e (n, c, iv, st) w)).
Proof.
  intros Hskip (Hu & Hin & evs & Htr & Hevs).
  destruct (string_dec n (Agents.name r)) as [Heq|Hne].
  - rewrite check_agent_unparsed by auto. cbn [fst]. unfold left_alone. eauto.
  - destruct (check_agent_effect e n c iv st w) as (evs' & Htr' & Hevs' & Hdb).
    unfold left_alone. rewrite Htr', Htr, <- app_assoc.
    assert (Hkeep : unique_names (db (fst (check_agent e (n, c, iv, st) w)))
                    /\ In r (agents (db (fst (check_agent e (n, c, iv, st) w))))).
    { destruct Hdb as [-> | ->]; [now split|]. split.
      - unfold unique_names. now rewrite update_agents_stale_names.
      - apply update_agents_stale_other; [exact Hin|congruence]. }
    destruct Hkeep as [Hu' Hin']. split; [exact Hu'|]. split; [exact Hin'|].
    exists (evs ++ evs'). split; [reflexivity|].
    apply Forall_app. split; [exact Hevs|].
    revert Hevs'. apply Forall_impl. intros ev [Hev | ->]; [|discriminate].
    rewrite Hev. congruence.
Qed.

Lemma sweep_leaves_alone r base env w :
  fromisoformat (Agents.last_heartbeat r) = None ->
  left_alone r base w ->
  left_alone r base (fst (start_iteration env w)).
Proof.
  intros Hnone Hw. unfold start_iteration.
  rewrite except_Exception_world, check_all_agents_unfold.
  apply sweep_from_preserves; [|exact Hw].
  intros e [[[n c] iv] st] w0 Hrow. apply check_agent_leaves_alone.
  intros ->. destruct Hw as (Hu & Hin & _).
  unfold select_agents in Hrow. apply in_map_iff in Hrow.
  destruct Hrow as (r' & [= Hn Hc _ _] & Hin').
  rewrite (unique_names_same_row _ _ _ Hu Hin Hin' Hn) in Hc.
  now rewrite <- Hc.
Qed.

Lemma heartbeat_leaves_alone r base e hb w :
  HeartbeatRequest.agent_name hb <> Agents.name r ->
  left_alone r base w ->
  left_alone r base (fst (receive_heartbeat e hb w)).
Proof.
  intros Hne (Hu & Hin & evs & Htr & Hevs).
  destruct (accepted hb) eqn:Hs.
  - rewrite (receive_heartbeat_accepted _ _ _ Hs). unfold left_alone. cbn [db trace].
    split; [now apply heartbeat_db_unique|].
    split; [apply heartbeat_db_other; [exact Hin|congruence]|].
    exists (evs ++ heartbeat_events e hb). rewrite Htr, <- app_assoc.
    split; [reflexivity|]. apply Forall_app. split; [exact Hevs|].
    unfold heartbeat_events.
    destruct (HeartbeatRequest.status hb =? "error")%string; cbn [app];
      repeat constructor; cbn [event_agent]; congruence.
  - rewrite (receive_heartbeat_refused _ _ _ Hs). unfold left_alone. eauto.
Qed.

Lemma run_leaves_alone r base ops :
  fromisoformat (Agents.last_heartbeat r) = None ->
  Forall (fun o => operation_agent o <> Some (Agents.name r)) ops ->
  forall w, left_alone r base w -> left_alone r base (run ops w).
Proof.
  intros Hnone. induction ops as [|o ops IH]; intros Hops w Hw; [exact Hw|].
  inversion Hops as [|? ? Ho Hrest]; subst. cbn [run fold_left].
  apply IH; [exact Hrest|].
  destruct o as [e hb|env]; cbn [apply_operation].
  - apply heartbeat_leaves_alone; [|exact Hw]. cbn in Ho. congruence.
  - now apply sweep_leaves_alone.
Qed.

(** ** Every reachable table holds reported rows only *)

Lemma reachable_reported w :
  reachable w -> Forall reported (agents (db w)).
Proof.
  induction 1 as [|w o _ IH]; [constructor|].
  destruct o as [e hb|env]; cbn [apply_operation].
  - destruct (accepted hb) eqn:Hs.
    + rewrite (receive_heartbeat_accepted _ _ _ Hs). cbn [db].
      apply accepted_iff in Hs. apply heartbeat_db_reported; [apply Hs|exact IH].
    + now rewrite (receive_heartbeat_refused _ _ _ Hs).
  - unfold start_iteration. rewrite except_Exception_world, check_all_agents_unfold.
    apply (sweep_from_preserves (fun w => Forall reported (agents (db w)))); [|exact IH].
    intros e [[[n c] iv] st] w0 _ Hw0.
    destruct (check_agent_effect e n c iv st w0) as (_ & _ & _ & [-> | ->]);
      [exact Hw0|now apply update_agents_stale_reported].
Qed.

(** ** Order of events *)

Lemma happens_before_nil a b : ~ happens_before a b [].
Proof. intros (l1 & l2 & l3 & H). destruct l1; discriminate H. Qed.

Lemma happens_before_cons a b x l :
  happens_before a b (x :: l) <-> (x = a /\ In b l) \/ happens_before a b l.
Proof.
  split.
  - intros (l1 & l2 & l3 & H). destruct l1 as [|y l1]; cbn [app] in H.
    + injection H as -> ->. left. split; [reflexivity|]. apply in_elt.
    + injection H as _ ->. right. now exists l1, l2, l3.
  - intros [[-> Hin] | (l1 & l2 & l3 & ->)].
    + apply in_split in Hin. destruct Hin as (l2 & l3 & ->). now exists [], l2, l3.
    + now exists (x :: l1), l2, l3.
Qed.

(** ** Claims about the sweep *)

(** What the evaluation of one agent can raise. *)
Lemma check_agent_raises e row w ex :
  snd (check_agent e row w) = Raised ex -> ex = TypeError \/ ex = SlackClientFailure.
Proof.
  destruct row as [[[n c] iv] st].
  destruct c as [| |t|t|];
    try (rewrite check_agent_unparsed by reflexivity; discriminate).
  - destruct iv as [iv|].
    + rewrite check_agent_naive.
      destruct (is_overdue (now e) t iv); [destruct (slack e)|]; cbn [snd];
        intros [= <-] || discriminate. now right.
    + rewrite check_agent_null_interval. intros [= <-]. now left.
  - rewrite check_agent_aware. intros [= <-]. now left.
Qed.

(** An agent that is already stale and still silent gets its alert again. *)
Lemma stale_agent_alerted_again e n t iv w :
  is_overdue (now e) t iv = true ->
  In (Dispatch (TimeoutAlert n (HbIso t) (Float.to_int (hours_overdue (now e) t))) (slack e))
     (trace (fst (check_agent e (n, HbIso t, Some iv, "stale"%string) w))).
Proof.
  intros H. rewrite check_agent_naive, H.
  destruct (slack e); cbn [fst marked_stale alert_failed trace];
    apply in_or_app; right; now left.
Qed.

(** C1 fails on the code.  The hourly agent, silent for two hours: the first
    tick marks it stale and dispatches one timeout alert; the second tick,
    five minutes later and with no report in between, dispatches a second
    one. *)
Lemma C1_second_tick_alerts_again :
  option_map Agents.status (get_agent "backup" (db first_tick)) = Some "stale"%string
  /\ count_events is_timeout_alert (trace first_tick) = 1%nat
  /\ option_map Agents.status (get_agent "backup" (db second_tick)) = Some "stale"%string
  /\ count_events is_timeout_alert (trace second_tick) = 2%nat.
Proof. repeat split. Qed.

(** C3, as the code has it: for an agent found overdue whose status is not
    "stale", the sweep first calls the dispatcher with the timeout payload
    (name, stored heartbeat, whole hours of silence) and then, unless that
    call raised, sets the status to "stale" and commits. *)
Theorem C3_alert_then_stale_update e n t iv st w :
  st <> "stale"%string ->
  is_overdue (now e) t iv = true ->
  let hours := Float.to_int (hours_overdue (now e) t) in
  trace (fst (check_agent e (n, HbIso t, Some iv, st) w)) =
    trace w
    ++ Dispatch (TimeoutAlert n (HbIso t) hours) (slack e)
       :: (if escapes (slack e) then [] else [StaleUpdate n; Commit])
  /\ db (fst (check_agent e (n, HbIso t, Some iv, st) w)) =
       (if escapes (slack e) then db w else update_agents_stale n (db w))
  /\ snd (check_agent e (n, HbIso t, Some iv, st) w) =
       (if escapes (slack e) then Raised SlackClientFailure else Returned tt).
Proof.
  intros _ H hours. subst hours. rewrite check_agent_naive, H.
  destruct (slack e); cbn [escapes fst snd marked_stale alert_failed db trace];
    repeat split.
Qed.

Lemma C3_alert_then_stale_update_witness :
  trace (fst (check_agent (quiet (2 * us_per_hour))
                ("backup"%string, HbIso 0, Some 1, "success"%string) hourly_agent)) =
    trace hourly_agent
    ++ [Dispatch (TimeoutAlert "backup" (HbIso 0) 2) Delivered;
        StaleUpdate "backup"; Commit].
Proof.
  refine (proj1 (C3_alert_then_stale_update (quiet (2 * us_per_hour))
                   "backup"%string 0 1 "success"%string hourly_agent _ eq_refl)).
  discriminate.
Defined.

(** C3 as stated fails: in the tick that finds the hourly agent overdue, the
    alert is dispatched first and the status is set afterwards. *)
Lemma C3_status_is_not_set_first :
  happens_before (Dispatch (TimeoutAlert "backup" (HbIso 0) 2) Delivered)
                 (StaleUpdate "backup") (trace first_tick)
  /\ ~ happens_before (StaleUpdate "backup")
                      (Dispatch (TimeoutAlert "backup" (HbIso 0) 2) Delivered)
                      (trace first_tick).
Proof.
  change (trace first_tick)
    with [AgentsWrite "backup"; LogAppend "backup"; Commit;
          Dispatch (TimeoutAlert "backup" (HbIso 0) 2) Delivered;
          StaleUpdate "backup"; Commit].
  split.
  - exists [AgentsWrite "backup"; LogAppend "backup"; Commit], [], [Commit].
    reflexivity.
  - intros H.
    repeat (apply happens_before_cons in H;
            destruct H as [[E Hin] | H];
            [try discriminate E; cbn [In] in Hin; intuition discriminate|]).
    exact (happens_before_nil _ _ H).
Qed.

(** The loop body has no handler of its own.  When the evaluation of a row
    raises, [check_all_agents] ends there with that exception, the rows after
    it in the snapshot are not evaluated, and the handler in [start] is the
    one that catches it. *)
Lemma raising_row_ends_the_tick env w pre row post w1 w2 ex :
  select_agents (db w) = pre ++ row :: post ->
  sweep_from env 0 pre w = (w1, Returned tt) ->
  check_agent (env (List.length pre)) row w1 = (w2, Raised ex) ->
  check_all_agents env w = (w2, Raised ex)
  /\ start_iteration env w = (w2, Returned tt)
  /\ ex <> SlackApiError.
Proof.
  intros Hrows Hpre Hrow.
  assert (Hall : check_all_agents env w = (w2, Raised ex)).
  { rewrite check_all_agents_unfold, Hrows, sweep_from_app, Hpre.
    cbn [Nat.add]. now rewrite sweep_from_cons, Hrow. }
  split; [exact Hall|]. split.
  - unfold start_iteration, except_Exception. now rewrite Hall.
  - pose proof (check_agent_raises (env (List.length pre)) row w1 ex) as Hex.
    rewrite Hrow in Hex. destruct (Hex eq_refl) as [-> | ->]; discriminate.
Qed.

(** C7 fails on the code.  Two agents have reported; the first one sent
    [expected_interval_hours: null], so the comparison of its evaluation
    raises TypeError and the tick ends there.  The second agent, three hours
    silent on a one-hour interval, is not evaluated: it gets no alert and
    keeps its status, where a sweep that isolated each agent would have
    alerted and marked it. *)
Lemma C7_later_agents_are_not_evaluated :
  check_all_agents three_hours_later two_agents = (two_agents, Raised TypeError)
  /\ start_iteration three_hours_later two_agents = (two_agents, Returned tt)
  /\ count_events is_timeout_alert (trace swept) = 0%nat
  /\ option_map Agents.status (get_agent "scraper" (db swept)) = Some "success"%string
  /\ count_events is_timeout_alert (trace swept_isolated) = 1%nat
  /\ option_map Agents.status (get_agent "scraper" (db swept_isolated)) = Some "stale"%string
  /\ swept <> swept_isolated.
Proof.
  repeat split. intros H.
  apply (f_equal (fun w => List.length (trace w))) in H.
  vm_compute in H. discriminate H.
Qed.

(** C8: in every world reachable from the empty tables by heartbeat calls and
    watchdog iterations, a row has status "unknown" exactly when its
    last_heartbeat is null (no row has either). *)
Theorem C8_unknown_iff_no_heartbeat w r :
  reachable w ->
  In r (agents (db w)) ->
  Agents.status r = "unknown"%string <-> Agents.last_heartbeat r = HbNull.
Proof.
  intros Hw Hin. apply reachable_reported in Hw.
  rewrite Forall_forall in Hw. destruct (Hw r Hin) as [[t Ht] Hst].
  rewrite Ht. split; [|discriminate].
  intros Hun. rewrite Hun in Hst. destruct Hst as [H|[H|H]]; discriminate H.
Qed.

Lemma C8_unknown_iff_no_heartbeat_witness :
  In backup_row_stale (agents (db first_tick))
  /\ (Agents.status backup_row_stale = "unknown"%string
      <-> Agents.last_heartbeat backup_row_stale = HbNull).
Proof.
  assert (Hrows : agents (db first_tick) = [backup_row_stale]) by reflexivity.
  assert (Hin : In backup_row_stale (agents (db first_tick)))
    by (rewrite Hrows; apply in_eq).
  split; [exact Hin|].
  refine (C8_unknown_iff_no_heartbeat first_tick backup_row_stale _ Hin).
  exact (reachable_step _ (Sweep (fun _ => quiet (2 * us_per_hour)))
           (reachable_step _ (Heartbeat (quiet 0) (report "backup" "success" (Some 1)))
              reachable_init)).
Defined.

(** C10: a row whose last_heartbeat is null, or is a value fromisoformat does
    not parse, is skipped by the sweep without an exception; through any
    sequence of watchdog iterations, at any clock readings, and of reports
    of other agents, the row stays as it is (so it is never marked stale) and
    no alert or other event names its agent. *)
Theorem C10_unreadable_heartbeat_is_skipped ops w r :
  unique_names (db w) ->
  In r (agents (db w)) ->
  fromisoformat (Agents.last_heartbeat r) = None ->
  Forall (fun o => operation_agent o <> Some (Agents.name r)) ops ->
  (forall e w0, check_agent e (selected r) w0 = (w0, Returned tt))
  /\ In r (agents (db (run ops w)))
  /\ exists evs,
       trace (run ops w) = trace w ++ evs
       /\ Forall (fun ev => event_agent ev <> Some (Agents.name r)) evs.
Proof.
  intros Hu Hin Hnone Hops. split.
  - intros e w0. now apply check_agent_unparsed.
  - assert (H0 : left_alone r (trace w) w).
    { split; [exact Hu|]. split; [exact Hin|]. exists []. now rewrite app_nil_r. }
    destruct (run_leaves_alone r (trace w) ops Hnone Hops w H0) as (_ & Hin' & Hevs).
    now split.
Qed.

Lemma C10_unreadable_heartbeat_is_skipped_witness :
  In never_reported
     (agents (db (run [Heartbeat (quiet 0) (report "backup" "success" (Some 1));
                       Sweep (fun _ => quiet (1000 * us_per_hour))]
                      preregistered))).
Proof.
  refine (proj1 (proj2 (C10_unreadable_heartbeat_is_skipped
            [Heartbeat (quiet 0) (report "backup" "success" (Some 1));
             Sweep (fun _ => quiet (1000 * us_per_hour))]
            preregistered never_reported _ _ eq_refl _))).
  - repeat constructor. intros [].
  - now left.
  - repeat constructor; discriminate.
Defined.

(** * Further properties *)

(** ** The log along a run *)

Lemma check_agent_keeps_log e row w :
  heartbeat_log (db (fst (check_agent e row w))) = heartbeat_log (db w)
  /\ heartbeat_log_seq (db (fst (check_agent e row w))) = heartbeat_log_seq (db w)
  /\ agents_seq (db (fst (check_agent e row w))) = agents_seq (db w).
Proof.
  destruct row as [[[n c] iv] st].
  destruct (check_agent_effect e n c iv st w) as (_ & _ & _ & [-> | ->]);
    repeat split.
Qed.

Lemma sweep_keeps_log env w :
  heartbeat_log (db (fst (start_iteration env w))) = heartbeat_log (db w)
  /\ heartbeat_log_seq (db (fst (start_iteration env w))) = heartbeat_log_seq (db w)
  /\ agents_seq (db (fst (start_iteration env w))) = agents_seq (db w).
Proof.
  unfold start_iteration. rewrite except_Exception_world, check_all_agents_unfold.
  apply (sweep_from_preserves
           (fun w' => heartbeat_log (db w') = heartbeat_log (db w)
                      /\ heartbeat_log_seq (db w') = heartbeat_log_seq (db w)
                      /\ agents_seq (db w') = agents_seq (db w)));
    [|repeat split].
  intros e row w0 _ (H1 & H2 & H3).
  destruct (check_agent_keeps_log e row w0) as (-> & -> & ->). now repeat split.
Qed.



(** ** What a sweep can change *)

Lemma set_status_twice s r : set_status s (set_status s r) = set_status s r.
Proof. reflexivity. Qed.

Lemma update_agents_stale_rows n d :
  Forall2 (fun r r' => r' = r \/ r' = set_status "stale" r)
          (agents d) (agents (update_agents_stale n d)).
Proof.
  cbn [update_agents_stale agents].
  induction (agents d) as [|r l IH]; cbn [map]; constructor; [|exact IH].
  destruct (Agents.name r =? n)%string; auto.
Qed.

Lemma marked_rows_trans (l1 l2 l3 : list Agents.row) :
  Forall2 (fun r r' => r' = r \/ r' = set_status "stale" r) l1 l2 ->
  Forall2 (fun r r' => r' = r \/ r' = set_status "stale" r) l2 l3 ->
  Forall2 (fun r r' => r' = r \/ r' = set_status "stale" r) l1 l3.
Proof.
  intros H12. revert l3. induction H12 as [|a b l1 l2 Hab _ IH]; intros l3 H23.
  - inversion H23. constructor.
  - inversion H23 as [|b' c l2' l3' Hbc Hrest]; subst. constructor; [|now apply IH].
    destruct Hab as [-> | ->], Hbc as [-> | ->]; auto.
Qed.

Lemma marked_rows_refl (l : list Agents.row) :
  Forall2 (fun r r' => r' = r \/ r' = set_status "stale" r) l l.
Proof. induction l; constructor; auto. Qed.

(** X2: a watchdog iteration, whether it completes or is cut short by an
    exception, changes nothing in the database but status columns, and those
    only to "stale": the table keeps its rows in place, with every other
    column as it was, and the log and both rowid counters are untouched. *)
Theorem X2_sweep_changes_status_only env w :
  Forall2 (fun r r' => r' = r \/ r' = set_status "stale" r)
          (agents (db w)) (agents (db (fst (start_iteration env w))))
  /\ heartbeat_log (db (fst (start_iteration env w))) = heartbeat_log (db w)
  /\ heartbeat_log_seq (db (fst (start_iteration env w))) = heartbeat_log_seq (db w)
  /\ agents_seq (db (fst (start_iteration env w))) = agents_seq (db w).
Proof.
  split; [|apply sweep_keeps_log].
  unfold start_iteration. rewrite except_Exception_world, check_all_agents_unfold.
  apply (sweep_from_preserves
           (fun w' => Forall2 (fun r r' => r' = r \/ r' = set_status "stale" r)
                              (agents (db w)) (agents (db w'))));
    [|apply marked_rows_refl].
  intros e [[[n c] iv] st] w0 _ H0.
  destruct (check_agent_effect e n c iv st w0) as (_ & _ & _ & [-> | ->]);
    [exact H0|].
  eapply marked_rows_trans; [exact H0|apply update_agents_stale_rows].
Qed.

(** ** The registry as the latest view of the log *)

Lemma max_rowid_bounded {R} (rowid : R -> Z) (rows : list R) (b : Z) :
  0 <= b -> (forall r, In r rows -> rowid r <= b) -> max_rowid rowid rows <= b.
Proof.
  intros Hb. induction rows as [|x rows IH]; cbn [max_rowid fold_right]; intros H.
  - exact Hb.
  - fold (max_rowid rowid rows).
    assert (rowid x <= b) by (apply H; now left).
    assert (max_rowid rowid rows <= b) by (apply IH; intros r Hr; apply H; now right).
    lia.
Qed.

Lemma max_rowid_nonneg {R} (rowid : R -> Z) (rows : list R) :
  0 <= max_rowid rowid rows.
Proof.
  induction rows as [|x rows IH]; cbn [max_rowid fold_right]; [lia|].
  fold (max_rowid rowid rows). lia.
Qed.

Lemma next_rowid_bounded {R} (rowid : R -> Z) (rows : list R) (seq : Z) :
  0 <= seq -> (forall r, In r rows -> rowid r <= seq) ->
  next_rowid seq rowid rows = seq + 1.
Proof.
  intros Hs H. unfold next_rowid.
  pose proof (max_rowid_bounded rowid rows seq Hs H). lia.
Qed.

Lemma get_agent_update_stale n n' d :
  get_agent n (update_agents_stale n' d) =
    option_map (fun r => if (Agents.name r =? n')%string then set_status "stale" r else r)
               (get_agent n d).
Proof.
  unfold get_agent. cbn [update_agents_stale agents].
  induction (agents d) as [|r l IH]; cbn [map find option_map]; [reflexivity|].
  assert (Hname : Agents.name (if (Agents.name r =? n')%string
                               then set_status "stale" r else r) = Agents.name r)
    by (now destruct (Agents.name r =? n')%string).
  rewrite Hname. destruct (Agents.name r =? n)%string; [reflexivity|exact IH].
Qed.

Lemma find_after_replace_other n n0 (r0 : Agents.row) l :
  Agents.name r0 = n0 -> n <> n0 ->
  find (fun r => (Agents.name r =? n)%string)
       (filter (fun r => negb (Agents.name r =? n0)%string) l ++ [r0])
  = find (fun r => (Agents.name r =? n)%string) l.
Proof.
  intros H0 Hne.
  assert (Hn : (n0 =? n)%string = false) by (apply String.eqb_neq; congruence).
  induction l as [|r l IH]; cbn [filter app find].
  - now rewrite H0, Hn.
  - destruct (Agents.name r =? n0)%string eqn:E; cbn [negb app find].
    + apply String.eqb_eq in E. rewrite E, Hn. exact IH.
    + destruct (Agents.name r =? n)%string; [reflexivity|exact IH].
Qed.

Lemma get_agent_heartbeat_db_other e hb d n :
  n <> HeartbeatRequest.agent_name hb ->
  get_agent n (heartbeat_db e hb d) = get_agent n d.
Proof.
  intros Hne. unfold get_agent. rewrite agents_heartbeat_db.
  now apply find_after_replace_other.
Qed.

Lemma latest_entry_app n log new :
  latest_entry n (log ++ [new]) =
    if (HeartbeatLog.agent_name new =? n)%string then Some new else latest_entry n log.
Proof.
  unfold latest_entry. now rewrite rev_app_distr.
Qed.

Lemma shows_set_stale r l :
  shows r l -> shows (set_status "stale" r) l.
Proof.
  intros (H1 & H2 & H3 & H4 & _). unfold shows. cbn. auto 6.
Qed.

Lemma latest_view_update_stale n d :
  latest_view d -> latest_view (update_agents_stale n d).
Proof.
  intros (Hseq & H0 & Hlog & Hag & Hview).
  split; [exact Hseq|]. split; [exact H0|]. split; [exact Hlog|]. split.
  - intros r' Hin. cbn [update_agents_stale agents] in Hin.
    apply in_map_iff in Hin. destruct Hin as (r & <- & Hr).
    cbn [agents_seq update_agents_stale].
    specialize (Hag r Hr). now destruct (Agents.name r =? n)%string.
  - intros m. rewrite get_agent_update_stale.
    cbn [heartbeat_log update_agents_stale]. specialize (Hview m).
    destruct (get_agent m d) as [r|]; cbn [option_map];
      destruct (latest_entry m (heartbeat_log d)) as [l|]; try exact Hview.
    destruct (Agents.name r =? n)%string; [now apply shows_set_stale|exact Hview].
Qed.

Lemma latest_view_heartbeat_db e hb d :
  latest_view d -> latest_view (heartbeat_db e hb d).
Proof.
  intros (Hseq & H0 & Hlog & Hag & Hview).
  assert (Ha : next_rowid (agents_seq d) Agents.id (agents d) = agents_seq d + 1)
    by (apply next_rowid_bounded; [lia|exact Hag]).
  assert (Hl : next_rowid (heartbeat_log_seq d) HeartbeatLog.id (heartbeat_log d)
               = heartbeat_log_seq d + 1)
    by (apply next_rowid_bounded; [lia|exact Hlog]).
  unfold latest_view.
  cbn [heartbeat_db insert_heartbeat_log insert_or_replace_agents
       agents agents_seq heartbeat_log heartbeat_log_seq].
  rewrite Ha, Hl.
  split; [lia|]. split; [lia|]. split; [|split].
  - intros l Hin. apply in_app_or in Hin. destruct Hin as [Hin|[<-|[]]].
    + specialize (Hlog l Hin). lia.
    + cbn [HeartbeatLog.id]. lia.
  - intros r Hin. apply in_app_or in Hin. destruct Hin as [Hin|[<-|[]]].
    + apply filter_In in Hin. destruct Hin as [Hin _]. specialize (Hag r Hin). lia.
    + cbn [Agents.id]. lia.
  - intros m. rewrite latest_entry_app. cbn [HeartbeatLog.agent_name].
    fold (insert_or_replace_agents (current_timestamp e)
            (HeartbeatRequest.agent_name hb) (HbIso (now e))
            (HeartbeatRequest.expected_interval_hours hb)
            (HeartbeatRequest.status hb) (HeartbeatRequest.message hb) d).
    fold (insert_heartbeat_log (HeartbeatRequest.agent_name hb)
            (HeartbeatRequest.status hb) (HeartbeatRequest.message hb) (now e)
            (insert_or_replace_agents (current_timestamp e)
               (HeartbeatRequest.agent_name hb) (HbIso (now e))
               (HeartbeatRequest.expected_interval_hours hb)
               (HeartbeatRequest.status hb) (HeartbeatRequest.message hb) d)).
    fold (heartbeat_db e hb d).
    destruct (HeartbeatRequest.agent_name hb =? m)%string eqn:E.
    + apply String.eqb_eq in E. subst m. rewrite get_agent_heartbeat_db, Ha.
      unfold shows. cbn. rewrite Hseq. repeat (split; [reflexivity|]). now left.
    + apply String.eqb_neq in E.
      rewrite get_agent_heartbeat_db_other by congruence. apply Hview.
Qed.

Lemma latest_view_init : latest_view init_db.
Proof.
  unfold latest_view. cbn. repeat split; try lia; try tauto.
Qed.

Lemma reachable_unique_names w :
  reachable w -> unique_names (db w).
Proof.
  induction 1 as [|w o _ IH]; [constructor|].
  destruct o as [e hb|env]; cbn [apply_operation].
  - destruct (accepted hb) eqn:Hs.
    + rewrite (receive_heartbeat_accepted _ _ _ Hs). cbn [db].
      now apply heartbeat_db_unique.
    + now rewrite (receive_heartbeat_refused _ _ _ Hs).
  - unfold start_iteration. rewrite except_Exception_world, check_all_agents_unfold.
    apply (sweep_from_preserves (fun w => unique_names (db w))); [|exact IH].
    intros e [[[n c] iv] st] w0 _ Hw0.
    destruct (check_agent_effect e n c iv st w0) as (_ & _ & _ & [-> | ->]);
      [exact Hw0|].
    unfold unique_names. now rewrite update_agents_stale_names.
Qed.

(** X3: in every world reachable from the empty tables, the registry is the
    latest view of the log.  Agent names are unique; an agent has a row
    exactly when the log holds an entry for it; and the row shows the
    agent's most recent entry: it has the entry's rowid, name, message and
    time, and either the entry's status or "stale". *)
Theorem X3_registry_shows_latest_log_entry w :
  reachable w ->
  unique_names (db w) /\ latest_view (db w).
Proof.
  intros Hw. split; [now apply reachable_unique_names|].
  induction Hw as [|w o _ IH]; [apply latest_view_init|].
  destruct o as [e hb|env]; cbn [apply_operation].
  - destruct (accepted hb) eqn:Hs.
    + rewrite (receive_heartbeat_accepted _ _ _ Hs). cbn [db].
      now apply latest_view_heartbeat_db.
    + now rewrite (receive_heartbeat_refused _ _ _ Hs).
  - unfold start_iteration. rewrite except_Exception_world, check_all_agents_unfold.
    apply (sweep_from_preserves (fun w => latest_view (db w))); [|exact IH].
    intros e [[[n c] iv] st] w0 _ Hw0.
    destruct (check_agent_effect e n c iv st w0) as (_ & _ & _ & [-> | ->]);
      [exact Hw0|now apply latest_view_update_stale].
Qed.

Lemma X3_registry_shows_latest_log_entry_witness :
  unique_names (db first_tick) /\ latest_view (db first_tick).
Proof.
  apply X3_registry_shows_latest_log_entry.
  exact (reachable_step _ (Sweep (fun _ => quiet (2 * us_per_hour)))
           (reachable_step _ (Heartbeat (quiet 0) (report "backup" "success" (Some 1)))
              reachable_init)).
Defined.

(** ** Agents are never deleted *)

Lemma apply_operation_keeps_agent o w n :
  get_agent n (db w) <> None -> get_agent n (db (apply_operation w o)) <> None.
Proof.
  intros H. destruct o as [e hb|env]; cbn [apply_operation].
  - destruct (accepted hb) eqn:Hs.
    + rewrite (receive_heartbeat_accepted _ _ _ Hs). cbn [db].
      destruct (string_dec n (HeartbeatRequest.agent_name hb)) as [-> | Hne].
      * now rewrite get_agent_heartbeat_db.
      * now rewrite get_agent_heartbeat_db_other.
    + now rewrite (receive_heartbeat_refused _ _ _ Hs).
  - unfold start_iteration. rewrite except_Exception_world, check_all_agents_unfold.
    apply (sweep_from_preserves (fun w => get_agent n (db w) <> None)); [|exact H].
    intros e [[[n' c] iv] st] w0 _ Hw0.
    destruct (check_agent_effect e n' c iv st w0) as (_ & _ & _ & [-> | ->]);
      [exact Hw0|].
    rewrite get_agent_update_stale. now destruct (get_agent n (db w0)).
Qed.

(** X4: no operation deletes an agent.  Once the table holds a row for a
    name, it holds one after any sequence of reports (accepted or rejected,
    for any agent) and watchdog iterations. *)
Theorem X4_agents_are_never_deleted ops :
  forall w n,
    get_agent n (db w) <> None -> get_agent n (db (run ops w)) <> None.
Proof.
  induction ops as [|o ops IH]; intros w n H; [exact H|].
  cbn [run fold_left]. apply IH. now apply apply_operation_keeps_agent.
Qed.

Lemma X4_agents_are_never_deleted_witness :
  get_agent "backup"
    (db (run [Sweep (fun _ => quiet (2 * us_per_hour));
              Heartbeat (quiet (3 * us_per_hour)) (report "scraper" "error" None)]
             hourly_agent)) <> None.
Proof.
  apply X4_agents_are_never_deleted. discriminate.
Defined.

(** ** A sweep that meets no exception *)

Lemma update_agents_stale_unique done todo (r : Agents.row) :
  NoDup (map Agents.name (done ++ r :: todo)) ->
  map (fun x => if (Agents.name x =? Agents.name r)%string
                then set_status "stale" x else x)
      (done ++ r :: todo)
  = done ++ set_status "stale" r :: todo.
Proof.
  intros Hnd. rewrite map_app in Hnd. cbn [map] in Hnd.
  apply NoDup_remove_2 in Hnd.
  assert (Hother : forall l, (forall x, In x l -> Agents.name x <> Agents.name r) ->
            map (fun x => if (Agents.name x =? Agents.name r)%string
                          then set_status "stale" x else x) l = l).
  { intros l Hl. rewrite <- (map_id l) at 2. apply map_ext_in.
    intros x Hx. specialize (Hl x Hx). apply String.eqb_neq in Hl. now rewrite Hl. }
  rewrite map_app. cbn [map]. rewrite String.eqb_refl.
  rewrite !Hother; [reflexivity| |].
  - intros x Hx Heq. apply Hnd. apply in_or_app. right.
    rewrite <- Heq. now apply in_map.
  - intros x Hx Heq. apply Hnd. apply in_or_app. left.
    rewrite <- Heq. now apply in_map.
Qed.

Lemma world_eta w :
  {| db := db w; trace := trace w ++ [] |} = w.
Proof. destruct w as [d tr]. cbn. now rewrite app_nil_r. Qed.

Lemma with_agents_same d : with_agents (agents d) d = d.
Proof. now destruct d. Qed.

(** The evaluation of a row that cannot raise. *)
Lemma check_agent_evaluable e r w :
  evaluable r ->
  escapes (slack e) = false ->
  check_agent e (selected r) w =
    ({| db := if due e r then update_agents_stale (Agents.name r) (db w) else db w;
        trace := trace w ++ row_events e r |},
     Returned tt).
Proof.
  unfold evaluable, due, row_events, selected, due. intros Hev Hslack.
  destruct (Agents.last_heartbeat r) as [| |t|t|];
    try (rewrite check_agent_unparsed by reflexivity; now rewrite world_eta);
    [|contradiction].
  destruct (Agents.expected_interval_hours r) as [iv|]; [|congruence].
  rewrite check_agent_naive.
  destruct (is_overdue (now e) t iv); [|now rewrite world_eta].
  destruct (slack e); try discriminate Hslack; reflexivity.
Qed.

Lemma complete_sweep_from env todo :
  forall done i w,
    agents (db w) = done ++ todo ->
    NoDup (map Agents.name (done ++ todo)) ->
    Forall evaluable todo ->
    (forall j, escapes (slack (env j)) = false) ->
    sweep_from env i (map selected todo) w =
      ({| db := with_agents (done ++ swept_rows env i todo) (db w);
          trace := trace w ++ swept_events env i todo |},
       Returned tt).
Proof.
  induction todo as [|r todo IH]; intros done i w Hrows Hnd Hev Hslack.
  - cbn [map sweep_from for_each swept_rows swept_events]. unfold ret.
    rewrite <- Hrows, with_agents_same. now rewrite world_eta.
  - inversion Hev as [|? ? Hr Hrest]; subst.
    cbn [map]. rewrite sweep_from_cons.
    rewrite (check_agent_evaluable _ _ _ Hr (Hslack i)).
    cbn [swept_rows swept_events].
    rewrite (IH (done ++ [if due (env i) r then set_status "stale" r else r]) (S i)).
    + cbn [db trace]. rewrite <- !app_assoc. cbn [app].
      now destruct (due (env i) r).
    + cbn [db]. rewrite <- app_assoc. cbn [app].
      destruct (due (env i) r); [|exact Hrows].
      cbn [update_agents_stale agents]. rewrite Hrows.
      now apply update_agents_stale_unique.
    + rewrite <- app_assoc. cbn [app]. rewrite map_app in *. cbn [map] in *.
      now destruct (due (env i) r).
    + exact Hrest.
    + exact Hslack.
Qed.

Lemma complete_sweep env w :
  unique_names (db w) ->
  Forall evaluable (agents (db w)) ->
  (forall i, escapes (slack (env i)) = false) ->
  check_all_agents env w =
    ({| db := with_agents (swept_rows env 0 (agents (db w))) (db w);
        trace := trace w ++ swept_events env 0 (agents (db w)) |},
     Returned tt).
Proof.
  intros Hu Hev Hslack. rewrite check_all_agents_unfold. unfold select_agents.
  exact (complete_sweep_from env (agents (db w)) [] 0%nat w eq_refl Hu Hev Hslack).
Qed.

Lemma count_swept_events env rows :
  forall i,
    count_events is_timeout_alert (swept_events env i rows) = count_due env i rows.
Proof.
  unfold count_events.
  induction rows as [|r rows IH]; intros i; [reflexivity|].
  cbn [swept_events count_due]. rewrite filter_app, length_app, IH.
  f_equal. unfold row_events, due.
  destruct (Agents.last_heartbeat r); try reflexivity.
  destruct (Agents.expected_interval_hours r); [|reflexivity].
  now destruct (is_overdue _ _ _).
Qed.

Lemma fleet_reachable : reachable fleet.
Proof.
  exact (reachable_step _ (Heartbeat (quiet 1) (report "scraper" "error" (Some 6)))
           (reachable_step _ (Heartbeat (quiet 0) (report "backup" "success" (Some 1)))
              reachable_init)).
Qed.

Lemma fleet_evaluable : Forall evaluable (agents (db fleet)).
Proof.
  assert (H : agents (db fleet) = fleet_rows) by reflexivity.
  rewrite H. repeat constructor; cbn; discriminate.
Qed.

(** X5: a sweep in which no evaluation can raise (every parsed heartbeat is
    naive and has a non-null interval, and the Slack client raises nothing
    but SlackApiError) returns normally, and it evaluates the whole table:
    exactly the rows that are overdue at their clock reading end with status
    "stale", every other row and column is unchanged, and the events are,
    row by row in table order, the alert, the update and the commit of each
    overdue row. *)
Theorem X5_complete_sweep env w :
  unique_names (db w) ->
  Forall evaluable (agents (db w)) ->
  (forall i, escapes (slack (env i)) = false) ->
  check_all_agents env w =
    ({| db := with_agents (swept_rows env 0 (agents (db w))) (db w);
        trace := trace w ++ swept_events env 0 (agents (db w)) |},
     Returned tt).
Proof.
  intros Hu Hev Hslack. rewrite check_all_agents_unfold. unfold select_agents.
  exact (complete_sweep_from env (agents (db w)) [] 0%nat w eq_refl Hu Hev Hslack).
Qed.

Lemma X5_complete_sweep_witness :
  check_all_agents three_hours_later fleet =
    ({| db := with_agents (swept_rows three_hours_later 0 (agents (db fleet))) (db fleet);
        trace := trace fleet ++ swept_events three_hours_later 0 (agents (db fleet)) |},
     Returned tt).
Proof.
  apply X5_complete_sweep.
  - exact (reachable_unique_names fleet fleet_reachable).
  - exact fleet_evaluable.
  - intros i. reflexivity.
Defined.

(** X6: such a sweep dispatches exactly one timeout alert for each row that
    is overdue, and none for any other row. *)
Theorem X6_one_alert_per_overdue_row env w :
  unique_names (db w) ->
  Forall evaluable (agents (db w)) ->
  (forall i, escapes (slack (env i)) = false) ->
  count_events is_timeout_alert (trace (fst (check_all_agents env w)))
  = (count_events is_timeout_alert (trace w) + count_due env 0 (agents (db w)))%nat.
Proof.
  intros Hu Hev Hslack. rewrite (complete_sweep env w Hu Hev Hslack).
  cbn [fst trace]. unfold count_events at 1.
  rewrite filter_app, length_app. f_equal. apply count_swept_events.
Qed.

Lemma X6_one_alert_per_overdue_row_witness :
  count_events is_timeout_alert (trace (fst (check_all_agents three_hours_later fleet)))
  = (count_events is_timeout_alert (trace fleet)
     + count_due three_hours_later 0 (agents (db fleet)))%nat.
Proof.
  apply X6_one_alert_per_overdue_row.
  - exact (reachable_unique_names fleet fleet_reachable).
  - exact fleet_evaluable.
  - intros i. reflexivity.
Defined.

(** ** The overdue test in binary64 *)

Section Rounding.
Local Open Scope Q_scope.

Lemma round_half_even_le q m :
  q <= inject_Z m -> (Float.round_half_even q <= m)%Z.
Proof.
  intros H. unfold Float.round_half_even.
  pose proof (Qfloor_le q) as Hf. pose proof (Qlt_floor q) as Hc.
  assert (Hfm : (Qfloor q <= m)%Z).
  { rewrite <- (Qfloor_Z m). now apply Qfloor_resp_le. }
  destruct (Z.eq_dec (Qfloor q) m) as [Heq|Hne].
  - assert (Hz : q - inject_Z (Qfloor q) == 0).
    { rewrite Heq in *. lra. }
    rewrite Hz. cbn. exact Hfm.
  - destruct (q - inject_Z (Qfloor q) ?= 1 # 2); try lia.
    destruct (Z.even (Qfloor q)); lia.
Qed.

Lemma round_half_even_ge q m :
  inject_Z m <= q -> (m <= Float.round_half_even q)%Z.
Proof.
  intros H. unfold Float.round_half_even.
  assert (Hfm : (m <= Qfloor q)%Z).
  { rewrite <- (Qfloor_Z m). now apply Qfloor_resp_le. }
  destruct (q - inject_Z (Qfloor q) ?= 1 # 2); try lia.
  destruct (Z.even (Qfloor q)); lia.
Qed.

Lemma round_half_even_near q :
  q - (1 # 2) <= inject_Z (Float.round_half_even q)
  /\ inject_Z (Float.round_half_even q) <= q + (1 # 2).
Proof.
  unfold Float.round_half_even.
  pose proof (Qfloor_le q) as Hf. pose proof (Qlt_floor q) as Hc.
  rewrite inject_Z_plus in Hc. change (inject_Z 1) with 1 in Hc.
  destruct (q - inject_Z (Qfloor q) ?= 1 # 2) eqn:E.
  - apply Qeq_alt in E.
    destruct (Z.even (Qfloor q)); rewrite ?inject_Z_plus;
      change (inject_Z 1) with 1; split; lra.
  - apply Qlt_alt in E. split; lra.
  - apply Qgt_alt in E. rewrite inject_Z_plus. change (inject_Z 1) with 1.
    split; lra.
Qed.

Lemma two_power_pos z : 0 < 2 ^ z.
Proof. apply Qpower_0_lt. reflexivity. Qed.

Lemma two_power_Z z : (0 <= z)%Z -> 2 ^ z == inject_Z (2 ^ z).
Proof. intros H. now rewrite Zpower_Qpower. Qed.

Lemma ilog2_lower q : ~ q == 0 -> 2 ^ Float.ilog2 q <= Qabs q.
Proof.
  intros Hq. unfold Float.ilog2.
  set (a := Z.log2 (Z.abs (Qnum q))). set (b := Z.log2 (Zpos (Qden q))).
  destruct (Qle_bool (2 ^ (a - b)) (Qabs q)) eqn:E.
  - now apply Qle_bool_iff in E.
  - clear E.
    assert (Hn : (0 < Z.abs (Qnum q))%Z).
    { destruct q as [n d]. unfold Qeq in Hq. cbn in *. lia. }
    assert (Ha : (2 ^ a <= Z.abs (Qnum q))%Z) by (apply Z.log2_spec; exact Hn).
    assert (Hb : (Zpos (Qden q) < 2 ^ (b + 1))%Z).
    { replace (b + 1)%Z with (Z.succ b) by lia. apply Z.log2_spec. reflexivity. }
    assert (Ha0 : (0 <= a)%Z) by apply Z.log2_nonneg.
    assert (Hb0 : (0 <= b)%Z) by apply Z.log2_nonneg.
    replace (a - b - 1)%Z with (a - (b + 1))%Z by lia.
    rewrite Qpower_minus by (intros H; discriminate H).
    rewrite (two_power_Z a Ha0), (two_power_Z (b + 1)) by lia.
    assert (Habs : Qabs q == inject_Z (Z.abs (Qnum q)) / inject_Z (Zpos (Qden q))).
    { destruct q as [n d]. cbn [Qabs Qnum Qden]. apply Qmake_Qdiv. }
    rewrite Habs.
    assert (HD : 0 < inject_Z (Zpos (Qden q))) by reflexivity.
    assert (HB : 0 < inject_Z (2 ^ (b + 1))).
    { change 0 with (inject_Z 0). rewrite <- Zlt_Qlt. lia. }
    apply Qle_shift_div_l; [exact HD|].
    unfold Qdiv. rewrite <- Qmult_assoc, (Qmult_comm (/ _)), Qmult_assoc.
    apply Qle_shift_div_r; [exact HB|].
    rewrite <- !inject_Z_mult, <- Zle_Qle. nia.
Qed.

Lemma ilog2_upper q k : ~ q == 0 -> Qabs q < 2 ^ (k + 1) -> (Float.ilog2 q <= k)%Z.
Proof.
  intros Hq Hk. pose proof (ilog2_lower q Hq) as Hl.
  assert (H : 2 ^ Float.ilog2 q < 2 ^ (k + 1)) by (eapply Qle_lt_trans; eassumption).
  apply Qpower_lt_compat_l_inv in H; [lia|reflexivity].
Qed.

Lemma binary64_zero x : x == 0 -> Float.binary64 x = 0.
Proof.
  intros H. unfold Float.binary64. apply Qeq_bool_iff in H. now rewrite H.
Qed.

Lemma binary64_value x :
  ~ x == 0 ->
  Float.binary64 x ==
    inject_Z (Float.round_half_even (x / 2 ^ (Float.ilog2 x - 52)))
    * 2 ^ (Float.ilog2 x - 52).
Proof.
  intros H. unfold Float.binary64.
  destruct (Qeq_bool x 0) eqn:E; [apply Qeq_bool_iff in E; contradiction|].
  apply Qred_correct.
Qed.

Lemma scaled_round_le x p m :
  0 < p -> x <= inject_Z m * p ->
  inject_Z (Float.round_half_even (x / p)) * p <= inject_Z m * p.
Proof.
  intros Hp H. apply Qmult_le_compat_r; [|lra].
  rewrite <- Zle_Qle. apply round_half_even_le.
  apply Qle_shift_div_r; assumption.
Qed.

Lemma scaled_round_ge x p m :
  0 < p -> inject_Z m * p <= x ->
  inject_Z m * p <= inject_Z (Float.round_half_even (x / p)) * p.
Proof.
  intros Hp H. apply Qmult_le_compat_r; [|lra].
  rewrite <- Zle_Qle. apply round_half_even_ge.
  apply Qle_shift_div_l; assumption.
Qed.

Lemma scaled_round_near x p :
  0 < p ->
  x - (1 # 2) * p <= inject_Z (Float.round_half_even (x / p)) * p
  /\ inject_Z (Float.round_half_even (x / p)) * p <= x + (1 # 2) * p.
Proof.
  intros Hp. destruct (round_half_even_near (x / p)) as [Hlo Hhi].
  assert (Hx : x == x / p * p) by (field; lra).
  split.
  - apply (Qmult_le_compat_r _ _ p) in Hlo; [|lra].
    rewrite Hx at 1. lra.
  - apply (Qmult_le_compat_r _ _ p) in Hhi; [|lra].
    rewrite Hx at 2. lra.
Qed.

(** An integer below 2^53 in magnitude is a float: rounding does not cross it. *)
Lemma int_scaled n e :
  (e <= 0)%Z -> inject_Z (n * 2 ^ (- e)) * 2 ^ e == inject_Z n.
Proof.
  intros He. rewrite inject_Z_mult, <- (two_power_Z (- e)) by lia.
  rewrite Qpower_opp. field. apply Qpower_not_0. intros H; discriminate H.
Qed.

Lemma binary64_le_int x n :
  x <= inject_Z n -> (Z.abs n < 2 ^ 53)%Z -> Float.binary64 x <= inject_Z n.
Proof.
  intros Hx Hn.
  destruct (Qeq_dec x 0) as [H0|H0].
  - rewrite (binary64_zero x H0). lra.
  - rewrite (binary64_value x H0).
    set (e := (Float.ilog2 x - 52)%Z). pose proof (two_power_pos e) as Hp.
    destruct (Z_le_gt_dec e 0) as [He|He].
    + rewrite <- (int_scaled n e He). apply scaled_round_le; [exact Hp|].
      now rewrite int_scaled.
    + pose proof (ilog2_lower x H0) as Hl.
      replace (Float.ilog2 x) with (52 + e)%Z in Hl by (unfold e; lia).
      rewrite Qpower_plus in Hl by (intros H; discriminate H).
      assert (H2 : 2 <= 2 ^ e).
      { change 2 with (2 ^ 1) at 1. apply Qpower_le_compat_l; [lia|]. discriminate. }
      change (2 ^ 52) with (inject_Z (2 ^ 52)) in Hl.
      assert (Hn' : - inject_Z (2 ^ 53) < inject_Z n /\ inject_Z n < inject_Z (2 ^ 53)).
      { rewrite <- inject_Z_opp, <- !Zlt_Qlt. lia. }
      change (inject_Z (2 ^ 53)) with (2 * inject_Z (2 ^ 52)) in Hn'.
      set (c := inject_Z (2 ^ 52)) in *.
      assert (Hc : 0 < c) by reflexivity.
      assert (Hcp : 2 * c <= c * 2 ^ e) by nra.
      destruct (Qlt_le_dec x 0) as [Hneg|Hpos].
      * rewrite Qabs_neg in Hl by lra.
        assert (Hle : x <= inject_Z (- 2 ^ 52) * 2 ^ e).
        { rewrite inject_Z_opp. fold c. lra. }
        apply (scaled_round_le x (2 ^ e) _ Hp) in Hle.
        rewrite inject_Z_opp in Hle. fold c in Hle. lra.
      * rewrite Qabs_pos in Hl by exact Hpos. lra.
Qed.

Lemma binary64_ge_int x n :
  inject_Z n <= x -> (Z.abs n < 2 ^ 53)%Z -> inject_Z n <= Float.binary64 x.
Proof.
  intros Hx Hn.
  destruct (Qeq_dec x 0) as [H0|H0].
  - rewrite (binary64_zero x H0). lra.
  - rewrite (binary64_value x H0).
    set (e := (Float.ilog2 x - 52)%Z). pose proof (two_power_pos e) as Hp.
    destruct (Z_le_gt_dec e 0) as [He|He].
    + rewrite <- (int_scaled n e He) at 1. apply scaled_round_ge; [exact Hp|].
      now rewrite int_scaled.
    + pose proof (ilog2_lower x H0) as Hl.
      replace (Float.ilog2 x) with (52 + e)%Z in Hl by (unfold e; lia).
      rewrite Qpower_plus in Hl by (intros H; discriminate H).
      assert (H2 : 2 <= 2 ^ e).
      { change 2 with (2 ^ 1) at 1. apply Qpower_le_compat_l; [lia|]. discriminate. }
      change (2 ^ 52) with (inject_Z (2 ^ 52)) in Hl.
      assert (Hn' : - inject_Z (2 ^ 53) < inject_Z n /\ inject_Z n < inject_Z (2 ^ 53)).
      { rewrite <- inject_Z_opp, <- !Zlt_Qlt. lia. }
      change (inject_Z (2 ^ 53)) with (2 * inject_Z (2 ^ 52)) in Hn'.
      set (c := inject_Z (2 ^ 52)) in *.
      assert (Hc : 0 < c) by reflexivity.
      assert (Hcp : 2 * c <= c * 2 ^ e) by nra.
      destruct (Qlt_le_dec x 0) as [Hneg|Hpos].
      * rewrite Qabs_neg in Hl by lra. lra.
      * rewrite Qabs_pos in Hl by exact Hpos.
        assert (Hge : inject_Z (2 ^ 52) * 2 ^ e <= x) by (fold c; lra).
        apply (scaled_round_ge x (2 ^ e) _ Hp) in Hge.
        fold c in Hge. lra.
Qed.

Lemma binary64_near x k :
  Qabs x < 2 ^ (k + 1) ->
  x - 2 ^ (k - 53) <= Float.binary64 x /\ Float.binary64 x <= x + 2 ^ (k - 53).
Proof.
  intros Hk. pose proof (two_power_pos (k - 53)) as Hpk.
  destruct (Qeq_dec x 0) as [H0|H0].
  - rewrite (binary64_zero x H0). split; lra.
  - rewrite (binary64_value x H0).
    pose proof (ilog2_upper x k H0 Hk) as Hup.
    set (e := (Float.ilog2 x - 52)%Z) in *. pose proof (two_power_pos e) as Hp.
    destruct (scaled_round_near x (2 ^ e) Hp) as [Hlo Hhi].
    assert (Hhalf : (1 # 2) * 2 ^ e <= 2 ^ (k - 53)).
    { replace e with ((e - 1) + 1)%Z at 1 by lia.
      rewrite Qpower_plus by (intros H; discriminate H).
      change (2 ^ 1) with 2.
      assert (2 ^ (e - 1) <= 2 ^ (k - 53))
        by (apply Qpower_le_compat_l; [unfold e; lia|discriminate]).
      lra. }
    split; lra.
Qed.

End Rounding.

Section Hours.
Local Open Scope Q_scope.
Variable d : Z.
Hypothesis Hd : (Z.abs d < 2 ^ 32 * 1000000)%Z.

Let x : Q := inject_Z d / inject_Z 1000000.
Let s : Q := Float.binary64 x.
Let y : Q := s / inject_Z 3600.
Let h : Q := Float.binary64 y.

Lemma seconds_exact : x == inject_Z d * (1 # 1000000).
Proof. unfold x. change (inject_Z 1000000) with (1000000 # 1). field. Qed.

Lemma micros_bounded :
  - (4294967296000000 # 1) < inject_Z d /\ inject_Z d < (4294967296000000 # 1).
Proof.
  change (4294967296000000 # 1) with (inject_Z (2 ^ 32 * 1000000)).
  rewrite <- inject_Z_opp, <- !Zlt_Qlt. lia.
Qed.

Lemma seconds_near : x - (1 # 4194304) <= s /\ s <= x + (1 # 4194304).
Proof.
  change (1 # 4194304) with (2 ^ (31 - 53)). apply binary64_near.
  change (2 ^ (31 + 1)) with (4294967296 # 1).
  pose proof seconds_exact. pose proof micros_bounded.
  apply Qabs_Qlt_condition. split; lra.
Qed.

Lemma seconds_bounded : - (4294967296 # 1) <= s /\ s <= (4294967296 # 1).
Proof.
  pose proof seconds_exact. pose proof micros_bounded.
  split.
  - change (- (4294967296 # 1)) with (inject_Z (- 4294967296)).
    apply binary64_ge_int; [|now vm_compute].
    change (inject_Z (- 4294967296)) with (- (4294967296 # 1)). lra.
  - change (4294967296 # 1) with (inject_Z 4294967296).
    apply binary64_le_int; [|now vm_compute].
    change (inject_Z 4294967296) with (4294967296 # 1). lra.
Qed.

Lemma hours_exact : y == s * (1 # 3600).
Proof. unfold y. change (inject_Z 3600) with (3600 # 1). field. Qed.

Lemma hours_near : y - (1 # 8589934592) <= h /\ h <= y + (1 # 8589934592).
Proof.
  change (1 # 8589934592) with (2 ^ (20 - 53)). apply binary64_near.
  change (2 ^ (20 + 1)) with (2097152 # 1).
  pose proof hours_exact. pose proof seconds_bounded.
  apply Qabs_Qlt_condition. split; lra.
Qed.

Lemma hours_bounded : - (2097152 # 1) < h /\ h < (2097152 # 1).
Proof.
  pose proof hours_exact. pose proof seconds_bounded. pose proof hours_near.
  split; lra.
Qed.

(** Whole hours are thresholds the two roundings do not blur. *)
Lemma hours_le_int K : (d <= K * 3600000000)%Z -> h <= inject_Z K.
Proof.
  intros HK.
  destruct (Z_lt_ge_dec K (2 ^ 21)) as [Hsmall|Hbig].
  - assert (HKlow : (- 2 ^ 21 < K)%Z) by lia.
    apply binary64_le_int; [|lia].
    rewrite hours_exact.
    assert (Hs : s <= inject_Z (K * 3600)).
    { apply binary64_le_int; [|lia].
      rewrite seconds_exact, inject_Z_mult.
      assert (inject_Z d <= inject_Z (K * 3600000000)) by (now rewrite <- Zle_Qle).
      rewrite inject_Z_mult in H.
      change (inject_Z 3600000000) with (3600000000 # 1) in H.
      change (inject_Z 3600) with (3600 # 1). lra. }
    rewrite inject_Z_mult in Hs. change (inject_Z 3600) with (3600 # 1) in Hs. lra.
  - pose proof hours_bounded.
    assert (inject_Z (2 ^ 21) <= inject_Z K) by (rewrite <- Zle_Qle; lia).
    change (inject_Z (2 ^ 21)) with (2097152 # 1) in H0. lra.
Qed.

Lemma hours_ge_int K : (K * 3600000000 <= d)%Z -> inject_Z K <= h.
Proof.
  intros HK.
  destruct (Z_lt_ge_dec (- 2 ^ 21) K) as [Hsmall|Hbig].
  - assert (HKup : (K < 2 ^ 21)%Z) by lia.
    apply binary64_ge_int; [|lia].
    rewrite hours_exact.
    assert (Hs : inject_Z (K * 3600) <= s).
    { apply binary64_ge_int; [|lia].
      rewrite seconds_exact, inject_Z_mult.
      assert (inject_Z (K * 3600000000) <= inject_Z d) by (now rewrite <- Zle_Qle).
      rewrite inject_Z_mult in H.
      change (inject_Z 3600000000) with (3600000000 # 1) in H.
      change (inject_Z 3600) with (3600 # 1). lra. }
    rewrite inject_Z_mult in Hs. change (inject_Z 3600) with (3600 # 1) in Hs. lra.
  - pose proof hours_bounded.
    assert (inject_Z K <= inject_Z (- 2 ^ 21)) by (rewrite <- Zle_Qle; lia).
    change (inject_Z (- 2 ^ 21)) with (- (2097152 # 1)) in H0. lra.
Qed.

Lemma hours_gt_int K : (K * 3600000000 < d)%Z -> inject_Z K < h.
Proof.
  intros HK.
  assert (H : inject_Z (K * 3600000000 + 1) <= inject_Z d)
    by (rewrite <- Zle_Qle; lia).
  rewrite inject_Z_plus, inject_Z_mult in H.
  change (inject_Z 3600000000) with (3600000000 # 1) in H.
  change (inject_Z 1) with 1 in H.
  pose proof seconds_exact. pose proof seconds_near.
  pose proof hours_exact. pose proof hours_near. lra.
Qed.

Lemma hours_lt_int K : (d < K * 3600000000)%Z -> h < inject_Z K.
Proof.
  intros HK.
  assert (H : inject_Z d <= inject_Z (K * 3600000000 - 1))
    by (rewrite <- Zle_Qle; lia).
  unfold Z.sub in H. rewrite inject_Z_plus, inject_Z_mult in H.
  change (inject_Z 3600000000) with (3600000000 # 1) in H.
  change (inject_Z (- (1))) with (- (1)) in H.
  pose proof seconds_exact. pose proof seconds_near.
  pose proof hours_exact. pose proof hours_near. lra.
Qed.
End Hours.

(** X7: for a silence of less than 2^32 seconds in either direction (136
    years), the two float divisions lose nothing: the sweep finds the agent
    overdue exactly when the silence, counted in microseconds, exceeds the
    interval in hours. *)
Theorem X7_overdue_test_is_exact now last iv :
  Z.abs (now - last) < 2 ^ 32 * us_per_second ->
  is_overdue now last iv = (iv * us_per_hour <? now - last).
Proof.
  intros Hd. unfold is_overdue, hours_overdue, Float.gt, Float.div, total_seconds,
    Float.truediv.
  unfold us_per_hour, us_per_second in *.
  destruct (Z.ltb_spec (iv * (3600 * 1000000)) (now - last)) as [Hlt|Hge].
  - pose proof (hours_gt_int (now - last) Hd iv) as H.
    destruct (Qle_bool _ (inject_Z iv)) eqn:E; [|reflexivity].
    apply Qle_bool_iff in E. exfalso.
    apply (Qlt_irrefl (inject_Z iv)). eapply Qlt_le_trans; [apply H; lia|exact E].
  - pose proof (hours_le_int (now - last) Hd iv) as H.
    destruct (Qle_bool _ (inject_Z iv)) eqn:E; [reflexivity|].
    assert (E' : Qle_bool
                   (Float.binary64
                      (Float.binary64 (inject_Z (now - last) / inject_Z 1000000)
                       / inject_Z 3600))
                   (inject_Z iv) = true)
      by (apply Qle_bool_iff; apply H; lia).
    rewrite E' in E. discriminate E.
Qed.

Lemma X7_overdue_test_is_exact_witness :
  is_overdue (2 * us_per_hour + 1) us_per_hour 1 = true.
Proof.
  refine (X7_overdue_test_is_exact (2 * us_per_hour + 1) us_per_hour 1 _).
  reflexivity.
Defined.

(** X8: for a silence of less than 2^32 seconds, the hours a timeout alert
    shows are the whole hours of the silence: the microseconds divided by
    3 600 000 000, rounded down. *)
Theorem X8_alert_shows_whole_hours now last :
  0 <= now - last < 2 ^ 32 * us_per_second ->
  Float.to_int (hours_overdue now last) = (now - last) / us_per_hour.
Proof.
  intros [H0 Hd]. unfold us_per_hour, us_per_second in *.
  assert (Habs : Z.abs (now - last) < 2 ^ 32 * 1000000) by lia.
  set (K := (now - last) / (3600 * 1000000)).
  assert (HK : K * 3600000000 <= now - last < (K + 1) * 3600000000).
  { pose proof (Z.div_mod (now - last) (3600 * 1000000) ltac:(lia)) as Hdm.
    pose proof (Z.mod_pos_bound (now - last) (3600 * 1000000) ltac:(lia)) as Hm.
    fold K in Hdm. lia. }
  assert (HK0 : 0 <= K) by (apply Z.div_pos; lia).
  pose proof (hours_ge_int (now - last) Habs K (proj1 HK)) as Hlo.
  pose proof (hours_lt_int (now - last) Habs (K + 1) (proj2 HK)) as Hhi.
  unfold hours_overdue, Float.div, total_seconds, Float.truediv, Float.to_int.
  change (inject_Z us_per_second) with (inject_Z 1000000).
  set (h := Float.binary64
              (Float.binary64 (inject_Z (now - last) / inject_Z 1000000)
               / inject_Z 3600)) in *.
  assert (Hnum : 0 <= Qnum h).
  { assert (Hh0 : (0 <= h)%Q).
    { eapply Qle_trans; [|exact Hlo]. change 0%Q with (inject_Z 0).
      rewrite <- Zle_Qle. exact HK0. }
    unfold Qle in Hh0. cbn in Hh0. lia. }
  rewrite Z.quot_div_nonneg by (try exact Hnum; reflexivity).
  assert (Hfl : Qnum h / Z.pos (Qden h) = Qfloor h) by (now destruct h).
  rewrite Hfl.
  apply Z.le_antisymm.
  - assert (Hf : (inject_Z (Qfloor h) < inject_Z (K + 1))%Q)
      by (eapply Qle_lt_trans; [apply Qfloor_le|exact Hhi]).
    rewrite <- Zlt_Qlt in Hf. lia.
  - rewrite <- (Qfloor_Z K). now apply Qfloor_resp_le.
Qed.

Lemma X8_alert_shows_whole_hours_witness :
  Float.to_int (hours_overdue (5 * us_per_hour / 2) 0) = 2.
Proof.
  refine (X8_alert_shows_whole_hours (5 * us_per_hour / 2) 0 _).
  split; reflexivity || discriminate.
Defined.

(** ** The status endpoint and the daily summary *)

Lemma status_cases s :
  (s = "success" /\ counted s = true /\ status_icon s = CheckMark)%string
  \/ (s = "error" /\ counted s = true /\ status_icon s = Siren)%string
  \/ (s = "stale" /\ counted s = true /\ status_icon s = AlarmClock)%string
  \/ ((s =? "success") = false /\ (s =? "error") = false /\ (s =? "stale") = false
      /\ counted s = false /\ status_icon s = AlarmClock)%string.
Proof.
  unfold counted, status_icon.
  destruct (String.eqb_spec s "success") as [-> | H1]; [now left|].
  destruct (String.eqb_spec s "error") as [-> | H2]; [right; now left|].
  destruct (String.eqb_spec s "stale") as [-> | H3]; [right; right; now left|].
  right; right; right. repeat split.
Qed.

(** X9: the daily summary.  The total is the number of entries and the
    agent list has one line per entry; an entry is counted as healthy, as
    an error or as stale according to its status, and entries with any
    other status are in the total but in none of the three counts.  The
    icons follow the status too, except that every status other than
    "success" and "error" gets the alarm clock: the alarm clocks are the
    stale entries plus the uncounted ones. *)
Theorem X9_daily_summary_counts agents_status :
  let s := daily_summary_blocks agents_status in
  let uncounted :=
    List.length (filter (fun a => negb (counted (AgentStatus.status a))) agents_status) in
  Summary.total s = List.length (Summary.agent_list s)
  /\ map snd (Summary.agent_list s) = map AgentStatus.name agents_status
  /\ (Summary.healthy s + Summary.errors s + Summary.stale s + uncounted
      = Summary.total s)%nat
  /\ count_icon CheckMark (Summary.agent_list s) = Summary.healthy s
  /\ count_icon Siren (Summary.agent_list s) = Summary.errors s
  /\ count_icon AlarmClock (Summary.agent_list s) = (Summary.stale s + uncounted)%nat.
Proof.
  cbn zeta. unfold daily_summary_blocks, count_status, count_icon.
  cbn [Summary.total Summary.healthy Summary.errors Summary.stale Summary.agent_list].
  induction agents_status as [|a l (IH1 & IH2 & IH3 & IH4 & IH5 & IH6)].
  - repeat split.
  - cbn [map filter List.length fst snd].
    destruct (status_cases (AgentStatus.status a))
      as [(E & Hc & Hi) | [(E & Hc & Hi) | [(E & Hc & Hi) | (E1 & E2 & E3 & Hc & Hi)]]];
      rewrite Hc, Hi; try rewrite E; try rewrite E1, E2, E3;
      cbn [String.eqb Ascii.eqb Bool.eqb negb List.length];
      rewrite IH2; repeat split; lia.
Qed.

Lemma count_status_permutation s l l' :
  Permutation l l' -> count_status s l = count_status s l'.
Proof.
  unfold count_status. induction 1 as [|x l l' _ IH|x y l|l l' l'' _ IH1 _ IH2].
  - reflexivity.
  - cbn [filter]. destruct (AgentStatus.status x =? s)%string; cbn [List.length]; lia.
  - cbn [filter].
    destruct (AgentStatus.status x =? s)%string, (AgentStatus.status y =? s)%string;
      reflexivity.
  - lia.
Qed.

Lemma count_status_reported s (rows : list Agents.row) :
  count_status s (map status_entry rows)
  = List.length (filter (fun r => (Agents.status r =? s)%string) rows).
Proof.
  unfold count_status. induction rows as [|r rows IH]; [reflexivity|].
  cbn [map filter status_entry AgentStatus.status].
  destruct (Agents.status r =? s)%string; cbn [List.length]; lia.
Qed.

Lemma reported_rows_counted (rows : list Agents.row) :
  Forall reported rows ->
  (List.length (filter (fun r => (Agents.status r =? "success")%string) rows)
   + List.length (filter (fun r => (Agents.status r =? "error")%string) rows)
   + List.length (filter (fun r => (Agents.status r =? "stale")%string) rows)
   = List.length rows)%nat.
Proof.
  induction 1 as [|r rows [_ Hst] _ IH]; [reflexivity|].
  cbn [filter List.length].
  destruct Hst as [-> | [-> | ->]]; cbn [String.eqb Ascii.eqb Bool.eqb List.length]; lia.
Qed.

(** X10: in a world reachable from the empty tables, whatever order SQLite
    returns the rows in, [GET /status] leaves the world alone and lists
    every agent, and the daily summary built from its answer accounts for
    every agent exactly once: healthy, errors and stale add up to the
    total, which is the number of rows of the table. *)
Theorem X10_summary_of_status_is_complete order_by w :
  (forall rows : list Agents.row, Permutation (order_by rows) rows) ->
  reachable w ->
  exists response,
    get_status order_by w = (w, Returned response)
    /\ StatusResponse.total response = List.length (agents (db w))
    /\ Permutation (StatusResponse.agents response) (map status_entry (agents (db w)))
    /\ let s := daily_summary_blocks (StatusResponse.agents response) in
       Summary.total s = List.length (agents (db w))
       /\ (Summary.healthy s + Summary.errors s + Summary.stale s = Summary.total s)%nat.
Proof.
  intros Hperm Hw. eexists. split; [reflexivity|].
  cbn [StatusResponse.total StatusResponse.agents].
  assert (Hp : Permutation (map status_entry (order_by (agents (db w))))
                           (map status_entry (agents (db w))))
    by (apply Permutation_map, Hperm).
  assert (Hlen : List.length (map status_entry (order_by (agents (db w))))
                 = List.length (agents (db w)))
    by (rewrite (Permutation_length Hp); apply length_map).
  split; [exact Hlen|]. split; [exact Hp|].
  cbn zeta. unfold daily_summary_blocks.
  cbn [Summary.total Summary.healthy Summary.errors Summary.stale].
  split; [exact Hlen|].
  rewrite !(count_status_permutation _ _ _ Hp), !count_status_reported, Hlen.
  apply reported_rows_counted. now apply reachable_reported.
Qed.

Lemma X10_summary_of_status_is_complete_witness :
  exists response,
    get_status (@rev Agents.row) fleet = (fleet, Returned response)
    /\ StatusResponse.total response = List.length (agents (db fleet)).
Proof.
  destruct (X10_summary_of_status_is_complete (@rev Agents.row) fleet
              (fun rows => Permutation_sym (Permutation_rev rows)) fleet_reachable)
    as (response & Hget & Htotal & _).
  exists response. split; assumption.
Defined.

(** ** The agent SDK *)

Lemma send_heartbeat_quiet AUTH_TOKEN net agent_name status message iv posts :
  only_request_exceptions net ->
  send_heartbeat AUTH_TOKEN net agent_name status message iv posts =
    (posts ++ [ {| Post.x_auth_token := AUTH_TOKEN;
                   Post.json := {| Payload.agent_name := agent_name;
                                   Payload.status := status;
                                   Payload.message := message;
                                   Payload.expected_interval_hours := iv |} |} ],
     PyReturn tt).
Proof.
  intros Hnet. unfold send_heartbeat, requests_post.
  specialize (Hnet (List.length posts)).
  destruct (net (List.length posts)) as [|x]; [reflexivity|]. now rewrite Hnet.
Qed.

(** X11: the decorator, on a network where [requests.post] raises nothing
    but RequestException.  When the function returns, one heartbeat with
    status "success" is posted and the value is returned; when it raises an
    Exception, one heartbeat with status "error" and the exception's text
    and traceback is posted and the same exception is raised again; when it
    raises something that is not an Exception (SystemExit,
    KeyboardInterrupt), nothing is posted.  Whether the post got through
    makes no difference to the caller. *)
Theorem X11_monitor_reports_once {A} AUTH_TOKEN net agent_name iv (func : py_result A) posts :
  only_request_exceptions net ->
  monitor AUTH_TOKEN net agent_name iv func posts =
    match func with
    | PyReturn result =>
        (posts ++ [ {| Post.x_auth_token := AUTH_TOKEN;
                       Post.json := {| Payload.agent_name := agent_name;
                                       Payload.status := "success";
                                       Payload.message := "Script completed successfully";
                                       Payload.expected_interval_hours := iv |} |} ],
         PyReturn result)
    | PyRaise e =>
        if is_Exception e then
          (posts ++ [ {| Post.x_auth_token := AUTH_TOKEN;
                         Post.json := {| Payload.agent_name := agent_name;
                                         Payload.status := "error";
                                         Payload.message := error_message e;
                                         Payload.expected_interval_hours := iv |} |} ],
           PyRaise e)
        else (posts, PyRaise e)
    end.
Proof.
  intros Hnet. unfold monitor, try_except_Exception, and_then, call, pure, throw.
  destruct func as [result|e].
  - now rewrite send_heartbeat_quiet.
  - destruct (is_Exception e); [|reflexivity]. now rewrite send_heartbeat_quiet.
Qed.

Lemma X11_monitor_reports_once_witness :
  monitor "change-me-in-production" always_responds "example_scraper" 12 run_scraper [] =
    ([ {| Post.x_auth_token := "change-me-in-production";
          Post.json := {| Payload.agent_name := "example_scraper";
                          Payload.status := "success";
                          Payload.message := "Script completed successfully";
                          Payload.expected_interval_hours := 12 |} |} ],
     PyReturn ("ok"%string, 42)).
Proof.
  refine (X11_monitor_reports_once "change-me-in-production" always_responds
            "example_scraper" 12 run_scraper [] _).
  intros i. exact I.
Defined.

(** X12: the context manager, on such a network, posts exactly one
    heartbeat whatever ends the block, also for an exception that is not
    an Exception, and never suppresses what the block raised. *)
Theorem X12_context_reports_once {A} AUTH_TOKEN net self (body : py_result A) posts :
  only_request_exceptions net ->
  with_MonitorContext AUTH_TOKEN net self body posts =
    match body with
    | PyReturn a =>
        (posts ++ [ {| Post.x_auth_token := AUTH_TOKEN;
                       Post.json := {| Payload.agent_name := MonitorContext.agent_name self;
                                       Payload.status := "success";
                                       Payload.message := "Script completed successfully";
                                       Payload.expected_interval_hours :=
                                         MonitorContext.expected_interval_hours self |} |} ],
         PyReturn (Some a))
    | PyRaise x =>
        (posts ++ [ {| Post.x_auth_token := AUTH_TOKEN;
                       Post.json := {| Payload.agent_name := MonitorContext.agent_name self;
                                       Payload.status := "error";
                                       Payload.message := error_message x;
                                       Payload.expected_interval_hours :=
                                         MonitorContext.expected_interval_hours self |} |} ],
         PyRaise x)
    end.
Proof.
  intros Hnet. unfold with_MonitorContext, __exit__, and_then, pure, throw.
  destruct body as [a|x]; now rewrite send_heartbeat_quiet.
Qed.

Lemma X12_context_reports_once_witness :
  with_MonitorContext "token" always_responds
    {| MonitorContext.agent_name := "check_due_dates";
       MonitorContext.expected_interval_hours := 24 |}
    (@PyRaise unit system_exit) [] =
    ([ {| Post.x_auth_token := "token";
          Post.json := {| Payload.agent_name := "check_due_dates";
                          Payload.status := "error";
                          Payload.message := error_message system_exit;
                          Payload.expected_interval_hours := 24 |} |} ],
     PyRaise system_exit).
Proof.
  refine (X12_context_reports_once "token" always_responds
            {| MonitorContext.agent_name := "check_due_dates";
               MonitorContext.expected_interval_hours := 24 |}
            (@PyRaise unit system_exit) [] _).
  intros i. exact I.
Defined.

(** X13: the success heartbeat is posted inside the decorator's try block.
    If the function returns and that post raises an Exception that is not
    a RequestException, the handler takes it for a failure of the
    function: a second heartbeat, with status "error", is posted, the
    exception of the post is raised, and the function's value is lost. *)
Theorem X13_failed_success_post_is_reported_as_error {A}
    AUTH_TOKEN net agent_name iv (result : A) x posts :
  net (List.length posts) = PostRaises x ->
  is_Exception x = true ->
  is_RequestException x = false ->
  net (S (List.length posts)) = Responded ->
  monitor AUTH_TOKEN net agent_name iv (PyReturn result) posts =
    (posts
     ++ [ {| Post.x_auth_token := AUTH_TOKEN;
             Post.json := {| Payload.agent_name := agent_name;
                             Payload.status := "success";
                             Payload.message := "Script completed successfully";
                             Payload.expected_interval_hours := iv |} |};
          {| Post.x_auth_token := AUTH_TOKEN;
             Post.json := {| Payload.agent_name := agent_name;
                             Payload.status := "error";
                             Payload.message := error_message x;
                             Payload.expected_interval_hours := iv |} |} ],
     PyRaise x).
Proof.
  intros H0 Hex Hreq H1.
  unfold monitor, try_except_Exception, and_then, call, pure, throw,
    send_heartbeat, requests_post.
  rewrite H0, Hreq, Hex, length_app. cbn [List.length].
  rewrite Nat.add_1_r, H1, <- app_assoc. reflexivity.
Qed.

Lemma X13_failed_success_post_is_reported_as_error_witness :
  snd (monitor "token"
         (fun i => match i with O => PostRaises value_error | S _ => Responded end)
         "example_scraper" 12 run_scraper [])
  = PyRaise value_error.
Proof.
  exact (f_equal snd
           (X13_failed_success_post_is_reported_as_error "token"
              (fun i => match i with O => PostRaises value_error | S _ => Responded end)
              "example_scraper" 12 ("ok"%string, 42) value_error []
              eq_refl eq_refl eq_refl eq_refl)).
Defined.

(** ** The SDK and the hub *)


Lemma post_heartbeat_refused AUTH_TOKEN x_auth_token e hb w :
  x_auth_token <> AUTH_TOKEN ->
  post_heartbeat AUTH_TOKEN x_auth_token e hb w
  = (w, Raised (HTTPException 401 "Invalid auth token")).
Proof.
  intros H. apply String.eqb_neq in H.
  unfold post_heartbeat, verify_auth, bind, raise. now rewrite H.
Qed.



(** X15: a hub that does not share the SDK's token refuses every heartbeat
    of the decorator with status code 401 before the handler runs: no
    table changes and no alert is dispatched.  The decorator does not look
    at the response, so the monitored function ends as it would have. *)
Theorem X15_wrong_token_changes_nothing {A}
    HUB_TOKEN SDK_TOKEN net agent_name iv (func : py_result A) e w :
  SDK_TOKEN <> HUB_TOKEN ->
  only_request_exceptions net ->
  Forall (fun p => serve HUB_TOKEN e p w
                   = (w, Raised (HTTPException 401 "Invalid auth token")))
         (fst (monitor SDK_TOKEN net agent_name iv func []))
  /\ snd (monitor SDK_TOKEN net agent_name iv func []) = func.
Proof.
  intros Hne Hnet.
  unfold monitor, try_except_Exception, and_then, call, pure, throw.
  destruct func as [result|x].
  - rewrite send_heartbeat_quiet by exact Hnet. cbn [fst snd app].
    split; [|reflexivity]. constructor; [|constructor].
    now apply post_heartbeat_refused.
  - destruct (is_Exception x).
    + rewrite send_heartbeat_quiet by exact Hnet. cbn [fst snd app].
      split; [|reflexivity]. constructor; [|constructor].
      now apply post_heartbeat_refused.
    + split; [constructor|reflexivity].
Qed.

Lemma X15_wrong_token_changes_nothing_witness :
  Forall (fun p => serve "secret" (quiet 0) p hourly_agent
                   = (hourly_agent, Raised (HTTPException 401 "Invalid auth token")))
         (fst (monitor "change-me-in-production" always_responds "example_scraper" 12
                 run_scraper []))
  /\ snd (monitor "change-me-in-production" always_responds "example_scraper" 12
            run_scraper []) = run_scraper.
Proof.
  refine (X15_wrong_token_changes_nothing "secret" "change-me-in-production"
            always_responds "example_scraper" 12 run_scraper (quiet 0) hourly_agent
            _ (fun i => I)).
  discriminate.
Defined.

(** ** No false alarm, no missed agent *)

Lemma not_overdue_within now last iv :
  Z.abs (now - last) < 2 ^ 32 * us_per_second ->
  now - last <= iv * us_per_hour ->
  is_overdue now last iv = false.
Proof.
  unfold us_per_hour, us_per_second. intros Hd Hle.
  pose proof (hours_le_int (now - last) Hd iv ltac:(lia)) as H.
  unfold is_overdue, hours_overdue, Float.gt, Float.div, total_seconds, Float.truediv.
  apply Qle_bool_iff in H.
  change (inject_Z us_per_second) with (inject_Z 1000000). now rewrite H.
Qed.

Lemma overdue_beyond now last iv :
  Z.abs (now - last) < 2 ^ 32 * us_per_second ->
  iv * us_per_hour < now - last ->
  is_overdue now last iv = true.
Proof.
  unfold us_per_hour, us_per_second. intros Hd Hlt.
  pose proof (hours_gt_int (now - last) Hd iv ltac:(lia)) as H.
  unfold is_overdue, hours_overdue, Float.gt, Float.div, total_seconds, Float.truediv.
  change (inject_Z us_per_second) with (inject_Z 1000000).
  destruct (Qle_bool _ (inject_Z iv)) eqn:E; [|reflexivity].
  apply Qle_bool_iff in E. exfalso.
  apply (Qlt_irrefl (inject_Z iv)). eapply Qlt_le_trans; [exact H|exact E].
Qed.

Lemma check_agent_within e r w :
  within_interval e r -> check_agent e (selected r) w = (w, Returned tt).
Proof.
  unfold within_interval, selected. intros H.
  destruct (Agents.last_heartbeat r) as [| |t|t|];
    try (now apply check_agent_unparsed); try contradiction.
  destruct (Agents.expected_interval_hours r) as [iv|]; [|contradiction].
  destruct H as [Hd Hle].
  now rewrite check_agent_naive, not_overdue_within.
Qed.

Lemma sweep_from_within env rows :
  forall i w,
    (forall j r, nth_error rows j = Some r -> within_interval (env (i + j)%nat) r) ->
    sweep_from env i (map selected rows) w = (w, Returned tt).
Proof.
  induction rows as [|r rows IH]; intros i w H; [reflexivity|].
  cbn [map]. rewrite sweep_from_cons.
  rewrite check_agent_within by (specialize (H 0%nat r eq_refl);
                                 now rewrite Nat.add_0_r in H).
  apply IH. intros j r' Hj. specialize (H (S j) r' Hj).
  now rewrite Nat.add_succ_r in H.
Qed.

(** X16: no false alarm.  If at its clock reading every row the sweep can
    read is within its interval (the silence, in microseconds, is at most
    expected_interval hours), the sweep returns normally and does nothing:
    no status changes, no alert is dispatched, nothing is committed. *)
Theorem X16_no_false_alarm env w :
  (forall i r, nth_error (agents (db w)) i = Some r -> within_interval (env i) r) ->
  check_all_agents env w = (w, Returned tt).
Proof.
  intros H. rewrite check_all_agents_unfold. unfold select_agents.
  apply sweep_from_within. exact H.
Qed.

Lemma X16_no_false_alarm_witness :
  check_all_agents quarter_past fleet = (fleet, Returned tt).
Proof.
  apply X16_no_false_alarm.
  assert (Hrows : agents (db fleet) = fleet_rows) by reflexivity.
  rewrite Hrows. intros i r Hr.
  destruct i as [|[|i]]; cbn in Hr.
  - injection Hr as <-. split; [reflexivity|discriminate].
  - injection Hr as <-. split; [reflexivity|discriminate].
  - destruct i; discriminate Hr.
Defined.

Lemma nth_error_swept_rows env rows :
  forall i j r,
    nth_error rows j = Some r ->
    nth_error (swept_rows env i rows) j
    = Some (if due (env (i + j)%nat) r then set_status "stale" r else r).
Proof.
  induction rows as [|x rows IH]; intros i j r Hj; [destruct j; discriminate Hj|].
  destruct j as [|j]; cbn [nth_error swept_rows] in *.
  - injection Hj as ->. now rewrite Nat.add_0_r.
  - replace (i + S j)%nat with (S i + j)%nat by lia. now apply IH.
Qed.

Lemma in_swept_events env rows :
  forall i j r ev,
    nth_error rows j = Some r ->
    In ev (row_events (env (i + j)%nat) r) ->
    In ev (swept_events env i rows).
Proof.
  induction rows as [|x rows IH]; intros i j r ev Hj Hev; [destruct j; discriminate Hj|].
  cbn [swept_events]. apply in_or_app.
  destruct j as [|j]; cbn [nth_error] in Hj.
  - injection Hj as ->. left. now rewrite Nat.add_0_r in Hev.
  - right. apply (IH (S i) j r ev Hj).
    replace (S i + j)%nat with (i + S j)%nat by lia. exact Hev.
Qed.

(** X17: no missed agent.  In a sweep in which no evaluation can raise, a
    row whose silence at its clock reading exceeds its interval (by a
    microsecond or more, and is shorter than 2^32 seconds) ends with status
    "stale", all its other columns unchanged, and a timeout alert with its
    name and stored heartbeat has been dispatched. *)
Theorem X17_overdue_agent_is_marked_and_alerted env w i r t iv :
  unique_names (db w) ->
  Forall evaluable (agents (db w)) ->
  (forall j, escapes (slack (env j)) = false) ->
  nth_error (agents (db w)) i = Some r ->
  Agents.last_heartbeat r = HbIso t ->
  Agents.expected_interval_hours r = Some iv ->
  Z.abs (now (env i) - t) < 2 ^ 32 * us_per_second ->
  iv * us_per_hour < now (env i) - t ->
  nth_error (agents (db (fst (check_all_agents env w)))) i = Some (set_status "stale" r)
  /\ In (Dispatch (TimeoutAlert (Agents.name r) (HbIso t)
                     (Float.to_int (hours_overdue (now (env i)) t)))
                  (slack (env i)))
        (trace (fst (check_all_agents env w))).
Proof.
  intros Hu Hev Hslack Hi Hc Hiv Hd Hlt.
  rewrite (complete_sweep env w Hu Hev Hslack). cbn [fst db trace with_agents agents].
  assert (Hdue : due (env i) r = true)
    by (unfold due; rewrite Hc, Hiv; now apply overdue_beyond).
  split.
  - rewrite (nth_error_swept_rows env _ 0%nat i r Hi). cbn [Nat.add]. now rewrite Hdue.
  - apply in_or_app. right. apply (in_swept_events env _ 0%nat i r _ Hi).
    cbn [Nat.add]. unfold row_events. rewrite Hc, Hdue. now left.
Qed.

Lemma X17_overdue_agent_is_marked_and_alerted_witness :
  nth_error (agents (db (fst (check_all_agents three_hours_later fleet)))) 0
  = Some (set_status "stale"
            {| Agents.id := 1;
               Agents.name := "backup";
               Agents.last_heartbeat := HbIso 0;
               Agents.expected_interval_hours := Some 1;
               Agents.status := "success";
               Agents.last_message := Some "done"%string;
               Agents.created_at := 0 |}).
Proof.
  refine (proj1 (X17_overdue_agent_is_marked_and_alerted three_hours_later fleet 0%nat
                   {| Agents.id := 1;
                      Agents.name := "backup";
                      Agents.last_heartbeat := HbIso 0;
                      Agents.expected_interval_hours := Some 1;
                      Agents.status := "success";
                      Agents.last_message := Some "done"%string;
                      Agents.created_at := 0 |} 0 1
                   (reachable_unique_names fleet fleet_reachable) fleet_evaluable
                   (fun j => eq_refl) eq_refl eq_refl eq_refl eq_refl eq_refl)).
Defined.

(** ** A report whose alert fails *)



(** ** A row that stops every sweep *)

Lemma check_agent_poisoned e a w :
  poisoned a -> check_agent e (selected a) w = (w, Raised TypeError).
Proof.
  unfold poisoned, selected. intros H.
  destruct (Agents.last_heartbeat a) as [| |t|t|]; try contradiction.
  - rewrite H. apply check_agent_null_interval.
  - apply check_agent_aware.
Qed.

(** The loop never gets past a poisoned row. *)
Lemma sweep_from_stops env pre a rest i w :
  poisoned a ->
  sweep_from env i (map selected (pre ++ a :: rest)) w
  = sweep_from env i (map selected (pre ++ [a])) w.
Proof.
  intros Ha. rewrite !map_app, !sweep_from_app.
  destruct (sweep_from env i (map selected pre) w) as [w' [[]|ex]]; [|reflexivity].
  cbn [map]. rewrite !sweep_from_cons.
  now rewrite (check_agent_poisoned _ a w' Ha).
Qed.

Lemma precedes_update_stale a r n d :
  Agents.name a <> n -> Agents.name r <> n ->
  precedes a r d -> precedes a r (update_agents_stale n d).
Proof.
  intros Ha Hr (pre & mid & post & Hd).
  apply String.eqb_neq in Ha. apply String.eqb_neq in Hr.
  unfold precedes. cbn [update_agents_stale agents]. rewrite Hd.
  rewrite map_app. cbn [map]. rewrite map_app. cbn [map]. rewrite Ha, Hr.
  eauto.
Qed.

Lemma precedes_heartbeat_db a r e hb d :
  Agents.name a <> HeartbeatRequest.agent_name hb ->
  Agents.name r <> HeartbeatRequest.agent_name hb ->
  precedes a r d -> precedes a r (heartbeat_db e hb d).
Proof.
  intros Ha Hr (pre & mid & post & Hd).
  apply String.eqb_neq in Ha. apply String.eqb_neq in Hr.
  unfold precedes. rewrite agents_heartbeat_db, Hd.
  rewrite filter_app. cbn [filter]. rewrite Ha. cbn [negb].
  rewrite filter_app. cbn [filter]. rewrite Hr. cbn [negb].
  rewrite <- !app_assoc. cbn [app]. rewrite <- app_assoc. cbn [app].
  eauto.
Qed.

Lemma check_agent_keeps_starved a r base e n c iv st w :
  n <> Agents.name a -> n <> Agents.name r ->
  starved a r base w ->
  starved a r base (fst (check_agent e (n, c, iv, st) w)).
Proof.
  intros Hna Hnr (Hu & Hp & evs & Htr & Hevs).
  destruct (check_agent_effect e n c iv st w) as (evs' & Htr' & Hevs' & Hdb).
  unfold starved. rewrite Htr', Htr, <- app_assoc.
  assert (Hkeep : unique_names (db (fst (check_agent e (n, c, iv, st) w)))
                  /\ precedes a r (db (fst (check_agent e (n, c, iv, st) w)))).
  { destruct Hdb as [-> | ->]; [now split|]. split.
    - unfold unique_names. now rewrite update_agents_stale_names.
    - apply precedes_update_stale; congruence. }
  destruct Hkeep as [Hu' Hp']. split; [exact Hu'|]. split; [exact Hp'|].
  exists (evs ++ evs'). split; [reflexivity|].
  apply Forall_app. split; [exact Hevs|].
  revert Hevs'. apply Forall_impl. intros ev [Hev | ->]; [|discriminate].
  rewrite Hev. congruence.
Qed.

Lemma names_before_differ (pre mid post : list Agents.row) a r x :
  NoDup (map Agents.name (pre ++ a :: mid ++ r :: post)) ->
  In x pre -> Agents.name x <> Agents.name a /\ Agents.name x <> Agents.name r.
Proof.
  intros Hnd Hx. rewrite map_app in Hnd. cbn [map] in Hnd.
  apply in_split in Hx. destruct Hx as (p1 & p2 & ->).
  rewrite map_app in Hnd. cbn [map] in Hnd. rewrite <- app_assoc in Hnd.
  cbn [app] in Hnd. apply NoDup_remove_2 in Hnd.
  split; intros Heq; apply Hnd; apply in_or_app; right; rewrite Heq.
  - apply in_or_app. right. now left.
  - apply in_or_app. right. right. rewrite map_app. cbn [map].
    apply in_or_app. right. now left.
Qed.

Lemma names_differ (pre mid post : list Agents.row) a r :
  NoDup (map Agents.name (pre ++ a :: mid ++ r :: post)) ->
  Agents.name a <> Agents.name r.
Proof.
  intros Hnd Heq. rewrite map_app in Hnd. cbn [map] in Hnd.
  apply NoDup_app_remove_l in Hnd. inversion Hnd as [|? ? Hnotin _]; subst.
  apply Hnotin. rewrite map_app. cbn [map]. apply in_or_app. right. now left.
Qed.

Lemma sweep_keeps_starved a r base env w :
  poisoned a ->
  starved a r base w ->
  starved a r base (fst (start_iteration env w)).
Proof.
  intros Ha Hw. pose proof Hw as (Hu & (pre & mid & post & Hd) & _).
  unfold start_iteration. rewrite except_Exception_world, check_all_agents_unfold.
  change (select_agents (db w)) with (map selected (agents (db w))). rewrite Hd.
  rewrite (sweep_from_stops env pre a (mid ++ r :: post) 0 w Ha).
  apply sweep_from_preserves; [|exact Hw].
  intros e row w0 Hrow Hw0. rewrite map_app in Hrow. cbn [map] in Hrow.
  apply in_app_or in Hrow. destruct Hrow as [Hrow | [<- | []]].
  - apply in_map_iff in Hrow. destruct Hrow as (x & <- & Hx).
    unfold unique_names in Hu. rewrite Hd in Hu.
    destruct (names_before_differ pre mid post a r x Hu Hx) as [H1 H2].
    now apply check_agent_keeps_starved.
  - now rewrite (check_agent_poisoned e a w0 Ha).
Qed.

Lemma heartbeat_keeps_starved a r base e hb w :
  HeartbeatRequest.agent_name hb <> Agents.name a ->
  HeartbeatRequest.agent_name hb <> Agents.name r ->
  starved a r base w ->
  starved a r base (fst (receive_heartbeat e hb w)).
Proof.
  intros Hna Hnr (Hu & Hp & evs & Htr & Hevs).
  destruct (accepted hb) eqn:Hs.
  - rewrite (receive_heartbeat_accepted _ _ _ Hs). unfold starved. cbn [db trace].
    split; [now apply heartbeat_db_unique|].
    split; [apply precedes_heartbeat_db; congruence|].
    exists (evs ++ heartbeat_events e hb). rewrite Htr, <- app_assoc.
    split; [reflexivity|]. apply Forall_app. split; [exact Hevs|].
    unfold heartbeat_events.
    destruct (HeartbeatRequest.status hb =? "error")%string; cbn [app];
      repeat constructor; cbn [event_agent]; congruence.
  - rewrite (receive_heartbeat_refused _ _ _ Hs). unfold starved. eauto.
Qed.

(** X19: a row whose evaluation raises TypeError (a NULL interval, which a
    report with [expected_interval_hours: null] stores, or a heartbeat text
    with a UTC offset) stops every sweep at its position.  As long as no
    report arrives for it, no row behind it in the table is ever reached:
    through any number of watchdog iterations, at any clock readings, and
    reports of other agents, such a row stays as it is, is never marked
    stale, and no alert is dispatched for it. *)
Theorem X19_poisoned_row_starves_the_rows_behind a r ops w :
  poisoned a ->
  unique_names (db w) ->
  precedes a r (db w) ->
  Forall (fun o => operation_agent o <> Some (Agents.name a)
                   /\ operation_agent o <> Some (Agents.name r)) ops ->
  precedes a r (db (run ops w))
  /\ exists evs,
       trace (run ops w) = trace w ++ evs
       /\ Forall (fun ev => event_agent ev <> Some (Agents.name r)) evs.
Proof.
  intros Ha Hu Hp Hops.
  assert (H0 : starved a r (trace w) w).
  { split; [exact Hu|]. split; [exact Hp|]. exists []. now rewrite app_nil_r. }
  assert (H : forall base w', starved a r base w' -> starved a r base (run ops w')).
  { clear Hu Hp H0. induction ops as [|o ops IH]; intros base w' H0; [exact H0|].
    inversion Hops as [|? ? [Hoa Hor] Hrest]; subst. cbn [run fold_left].
    apply (IH Hrest base (apply_operation w' o)).
    destruct o as [e hb|env]; cbn [apply_operation].
    - cbn in Hoa, Hor. apply heartbeat_keeps_starved; congruence.
    - now apply sweep_keeps_starved. }
  destruct (H (trace w) w H0) as (_ & Hp' & Hevs). now split.
Qed.

Lemma X19_poisoned_row_starves_the_rows_behind_witness :
  precedes null_interval_row scraper_row
    (db (run [Sweep a_year_later;
              Heartbeat (quiet (8761 * us_per_hour)) (report "nightly" "success" (Some 24));
              Sweep a_year_later]
             two_agents)).
Proof.
  assert (Hrows : agents (db two_agents) = [null_interval_row; scraper_row])
    by reflexivity.
  refine (proj1 (X19_poisoned_row_starves_the_rows_behind
                   null_interval_row scraper_row
                   [Sweep a_year_later;
                    Heartbeat (quiet (8761 * us_per_hour))
                              (report "nightly" "success" (Some 24));
                    Sweep a_year_later]
                   two_agents eq_refl _ _ _)).
  - unfold unique_names. rewrite Hrows. repeat constructor; cbn.
    + intros [H|[]]. discriminate H.
    + intros [].
  - exists [], [], []. exact Hrows.
  - repeat constructor; discriminate.
Defined.

(** ** A report re-arms the timeout *)









